(** * lambda-sqs-etl: a shallow embedding of [lambda_sqs_etl.py]

    The three Lambda handlers ([handler_list_pages], [handler_split_page],
    [handler_transform]) and the two helpers ([flatten], [chunks]) are
    embedded as Rocq functions.  The AWS services the handlers talk to
    (S3 listing, SQS, CloudWatch, the Lambda clock) are explicit arguments:
    every call that the Python code makes on them is a call of the
    corresponding argument here.  The calls that send, read or write
    ([send_message], [send_messages], [get], [put], [put_metric_data]) and
    the decoding of JSON may raise, which is an explicit outcome; the
    listing of the source bucket is taken to succeed. *)

From Stdlib Require Import ZArith List Bool Arith Lia Sorted.
From Stdlib Require OrderedTypeEx.
From stdpp Require Import base strings list gmap sorting.

Import ListNotations.
Local Open Scope string_scope.
Local Open Scope list_scope.

(** ** Python builtins used by the module *)
Module Py.

(** Truthiness of a [str]: only the empty string is falsy. *)
Definition truthy (s : string) : bool :=
  match s with
  | EmptyString => false
  | String _ _ => true
  end.

(** [len(range(start, stop, step))] for a positive [step]. *)
Definition range_len (start stop step : nat) : nat :=
  (stop - start + (step - 1)) / step.

Fixpoint range_from (count i step : nat) : list nat :=
  match count with
  | O => []
  | S c => i :: range_from c (i + step) step
  end.

(** [range(start, stop, step)]; a zero step raises [ValueError] ([None]). *)
Definition range (start stop step : nat) : option (list nat) :=
  if Nat.eqb step 0 then None
  else Some (range_from (range_len start stop step) start step).

(** The slice [l[i:j]]; indices beyond the end are clamped, as in Python. *)
Definition slice {A} (l : list A) (i j : nat) : list A :=
  firstn (j - i) (skipn i l).

(** [sep.join(items)] *)
Fixpoint join (sep : string) (items : list string) : string :=
  match items with
  | [] => ""
  | [x] => x
  | x :: rest => x +:+ sep +:+ join sep rest
  end.

(** JSON values as [json.loads] builds them.  A [dict] keeps its insertion
    order, so it is an association list whose keys are pairwise distinct.
    Numbers are kept as integers: the code never looks into a leaf. *)
#[local] Unset Elimination Schemes.
Inductive value : Type :=
| VNull
| VBool (b : bool)
| VInt (n : Z)
| VStr (s : string)
| VList (l : list value)
| VDict (d : list (string * value)).
#[local] Set Elimination Schemes.

Abbreviation pydict := (list (string * value)).

(** [isinstance(v, collections.MutableMapping)] *)
Definition is_mapping (v : value) : bool :=
  match v with
  | VDict _ => true
  | _ => false
  end.

(** [d[k] = v]: an existing key keeps its position, a new key goes last. *)
Fixpoint dict_set (d : pydict) (k : string) (v : value) : pydict :=
  match d with
  | [] => [(k, v)]
  | (k', v') :: rest =>
      if String.eqb k' k then (k', v) :: rest
      else (k', v') :: dict_set rest k v
  end.

(** [d.get(k)] *)
Fixpoint dict_get (d : pydict) (k : string) : option value :=
  match d with
  | [] => None
  | (k', v') :: rest => if String.eqb k' k then Some v' else dict_get rest k
  end.

(** [dict(items)]: later pairs overwrite earlier ones. *)
Definition dict_of_items (items : list (string * value)) : pydict :=
  fold_left (fun d kv => dict_set d (fst kv) (snd kv)) items [].

(** [d.update(items)]: the assignments [d[k] = v], one pair after the
    other; [dict(items)] is the update of the empty dict. *)
Definition dict_update (d : pydict) (items : list (string * value)) : pydict :=
  fold_left (fun d kv => dict_set d (fst kv) (snd kv)) items d.

(** The value of the last pair of [items] whose key is [k]. *)
Fixpoint last_value (k : string) (items : list (string * value)) : option value :=
  match items with
  | [] => None
  | (k', v) :: rest =>
      match last_value k rest with
      | Some x => Some x
      | None => if String.eqb k' k then Some v else None
      end
  end.

(** A well-formed [dict] has no repeated key. *)
Definition wf_dict (d : pydict) : Prop := List.NoDup (map fst d).

Definition LF : Ascii.ascii := Ascii.ascii_of_nat 10.
Definition CR : Ascii.ascii := Ascii.ascii_of_nat 13.

(** The string holds a line end. *)
Fixpoint has_line_break (s : string) : bool :=
  match s with
  | EmptyString => false
  | String c rest => Ascii.eqb c LF || Ascii.eqb c CR || has_line_break rest
  end.

(** [bytes.splitlines()]: lines end at ["\n"], ["\r"] or ["\r\n"]; the
    line ends are dropped and no empty last line is produced.  [cur] is
    the line being read. *)
Fixpoint splitlines_from (s cur : string) {struct s} : list string :=
  match s with
  | EmptyString => if truthy cur then [cur] else []
  | String c rest =>
      if Ascii.eqb c LF then cur :: splitlines_from rest ""
      else if Ascii.eqb c CR then
        match rest with
        | String c' rest' =>
            if Ascii.eqb c' LF then cur :: splitlines_from rest' ""
            else cur :: splitlines_from rest ""
        | EmptyString => cur :: splitlines_from rest ""
        end
      else splitlines_from rest (cur +:+ String c "")
  end.

Definition splitlines (s : string) : list string := splitlines_from s "".

(** The exceptions that reach a handler. *)
Inductive exn : Type :=
| ValueError
| AttributeError
| JSONDecodeError
| ClientError (operation : string).

End Py.

(** ** Handlers as state transformers that may raise

    A handler body runs on a state [S] (what it has done to the outside
    world so far) and either finishes or raises; the effects performed
    before an exception stay in the state. *)
Module Exc.
Import Py.

Inductive outcome (S A : Type) : Type :=
| Ok (a : A) (s : S)
| Raise (e : exn) (s : S).
Arguments Ok {S A} a s.
Arguments Raise {S A} e s.

Definition M (S A : Type) : Type := S -> outcome S A.

Definition ret {S A} (a : A) : M S A := fun s => Ok a s.

Definition bind {S A B} (m : M S A) (k : A -> M S B) : M S B :=
  fun s =>
    match m s with
    | Ok a s' => k a s'
    | Raise e s' => Raise e s'
    end.

Definition raise {S A} (e : exn) : M S A := fun s => Raise e s.

(** An operation that raises [e] when it has no result. *)
Definition or_raise {S A} (e : exn) (o : option A) : M S A :=
  match o with
  | Some a => ret a
  | None => raise e
  end.

Declare Scope exc_scope.
Delimit Scope exc_scope with exc.
Notation "x <- m ;; k" := (bind m (fun x => k))
  (at level 100, m at next level, right associativity) : exc_scope.
Notation "m1 ;;; m2" := (bind m1 (fun _ => m2))
  (at level 100, right associativity) : exc_scope.
Local Open Scope exc_scope.

(** [for x in xs: body(x)] *)
Fixpoint for_each {S A} (xs : list A) (body : A -> M S unit) : M S unit :=
  match xs with
  | [] => ret tt
  | x :: rest => body x ;;; for_each rest body
  end.

(** [[f(x) for x in xs]] *)
Fixpoint comprehension {S A B} (xs : list A) (f : A -> M S B) : M S (list B) :=
  match xs with
  | [] => ret []
  | x :: rest => y <- f x ;; ys <- comprehension rest f ;; ret (y :: ys)
  end.

(** The state in which a run ends. *)
Definition final {S A} (o : outcome S A) : S :=
  match o with
  | Ok _ s => s
  | Raise _ s => s
  end.

End Exc.

(** ** [chunks] *)

(** [chunks(l, n)]: the slices [l[i:i + n]] for [i] in
    [range(0, len(l), n)].  The generator is consumed by a [for] loop that
    does not touch [l], so the list of its yields models it. *)
Definition chunks {A} (l : list A) (n : nat) : option (list (list A)) :=
  match Py.range 0 (length l) n with
  | None => None
  | Some idx => Some (map (fun i => Py.slice l i (i + n)) idx)
  end.

(** ** [flatten] *)
Module Flatten.
Import Py.

(** [parent_key + sep + k if parent_key else k] *)
Definition new_key (parent_key sep k : string) : string :=
  if truthy parent_key then parent_key +:+ sep +:+ k else k.

(** What one iteration of the loop of [flatten] adds to [items] for an
    entry whose compound key is [nk] and whose value is [v]: the items of
    the recursive call when [v] is a mapping, the pair itself otherwise. *)
Fixpoint flatten_entry (sep nk : string) (v : value) {struct v}
  : list (string * value) :=
  match v with
  | VDict d' =>
      dict_of_items
        ((fix loop (d : pydict) : list (string * value) :=
            match d with
            | [] => []
            | (k, v') :: rest =>
                flatten_entry sep (new_key nk sep k) v' ++ loop rest
            end) d')
  | _ => [(nk, v)]
  end.

(** [flatten(d, parent_key, sep)] *)
Definition flatten (d : pydict) (parent_key sep : string) : pydict :=
  dict_of_items
    (flat_map (fun kv => flatten_entry sep (new_key parent_key sep (fst kv)) (snd kv)) d).

(** [flatten(d)] with the default arguments. *)
Definition flatten0 (d : pydict) : pydict := flatten d "" ".".

(** The leaves of a value with their paths, in iteration order: a value that
    is not a mapping is a leaf (sequences included). *)
Fixpoint leaves_val (v : value) : list (list string * value) :=
  match v with
  | VDict d =>
      (fix go (d : pydict) : list (list string * value) :=
         match d with
         | [] => []
         | (k, v') :: rest =>
             map (fun pv => (k :: fst pv, snd pv)) (leaves_val v') ++ go rest
         end) d
  | _ => [([], v)]
  end.

Definition leaves (d : pydict) : list (list string * value) :=
  leaves_val (VDict d).

(** The key that the recursion of [flatten] builds for a leaf: [new_key]
    applied along its path, from [parent_key] on. *)
Definition compound_key (parent_key sep : string) (path : list string) : string :=
  fold_left (fun acc k => new_key acc sep k) path parent_key.

(** The key the specification assigns to a leaf: its path joined by ["."]. *)
Definition joined_key (p : list string) : string := join "." p.

Definition fixture : pydict :=
  [("a", VDict [("b", VInt 1); ("c", VDict [("d", VInt 2)])])].

End Flatten.

(** ** [handler_list_pages] *)
Module Enumerator.
Import Py.

(** The Lambda context: [get_remaining_time_in_millis ctx n] is what the
    [n]-th call of the method returns during one invocation (the first call
    is call 0). *)
Record context : Type := {
  get_remaining_time_in_millis : nat -> Z
}.

(** The pages queue: [send_message_raises q n] tells whether the [n]-th
    [send_message] of the invocation raises instead of sending. *)
Record sqs_queue : Type := {
  send_message_raises : nat -> bool
}.

(** The source bucket, as the list of its keys in the order S3 lists them
    (ascending byte order). *)
Abbreviation bucket := (list string).

(** [bucket.objects.filter(MaxKeys=1000, Marker=m)]: every key that S3
    lists after the marker, over as many listing requests of 1000 keys as
    it takes; without a marker, every key. *)
Definition objects_filter (b : bucket) (marker : option string) : list string :=
  match marker with
  | None => b
  | Some m => List.filter (fun k => String.ltb m k) b
  end.

(** How an invocation ends. *)
Inductive exit : Type :=
| Return (ev : gmap string string)
| Raised (e : exn).

(** What an invocation did: how it ended, the pages it sent to the queue
    (a page [p] stands for the message of body [json.dumps(p)]), and the
    local [page] buffer as it was when the handler stopped. *)
Record run : Type := {
  ended : exit;
  sent : list (list string);
  buffer : list string
}.

(** The code after the loop: send the remaining keys, if any. *)
Definition finish (q : sqs_queue) (page : list string)
  (event : gmap string string) (sent : list (list string)) : run :=
  match page with
  | [] =>
      {| ended := Return (<["all_pages_listed" := "TRUE"]> event);
         sent := sent; buffer := page |}
  | _ :: _ =>
      if send_message_raises q (length sent)
      then {| ended := Raised (ClientError "SendMessage");
              sent := sent; buffer := page |}
      else {| ended := Return (<["all_pages_listed" := "TRUE"]> event);
              sent := sent ++ [page]; buffer := page |}
  end.

(** The [for] loop over the listed keys [objs]; [tick] counts the clock
    readings made so far. *)
Fixpoint scan (ctx : context) (q : sqs_queue) (objs : list string)
  (tick : nat) (page : list string) (event : gmap string string)
  (sent : list (list string)) {struct objs} : run :=
  match objs with
  | [] => finish q page event sent
  | key :: rest =>
      if (get_remaining_time_in_millis ctx tick <? 30000)%Z
      then {| ended := Return event; sent := sent; buffer := page |}
      else
        let page := page ++ [key] in
        if Nat.eqb (length page) 1000 then
          if send_message_raises q (length sent)
          then {| ended := Raised (ClientError "SendMessage");
                  sent := sent; buffer := page |}
          else scan ctx q rest (S tick) []
                 (<["bookmark" := key]> event) (sent ++ [page])
        else scan ctx q rest (S tick) page
               (<["bookmark" := key]> event) sent
  end.

(** [if bookmark: filter_kwargs['Marker'] = bookmark] *)
Definition marker_of (bookmark : option string) : option string :=
  match bookmark with
  | Some b => if truthy b then Some b else None
  | None => None
  end.

Definition handler_list_pages (b : bucket) (q : sqs_queue)
  (event : gmap string string) (ctx : context) : run :=
  let event := <["all_pages_listed" := "FALSE"]> event in
  let bookmark := event !! "bookmark" in
  scan ctx q (objects_filter b (marker_of bookmark)) 0 [] event [].

(** Modelled from the spec: the external orchestrator, which is not part of
    the module.  It invokes the handler, feeds the returned event back as
    the next input and stops when [all_pages_listed] is ["TRUE"].  Each
    invocation has its own context and view of the queue, taken from
    [invs]; the result is the last outcome and the pages sent over all
    the invocations, in order. *)
Inductive status : Type :=
| AllListed (ev : gmap string string)
| Pending (ev : gmap string string)
| Failed (e : exn).

Fixpoint orchestrate (b : bucket) (invs : list (context * sqs_queue))
  (event : gmap string string) : status * list (list string) :=
  match invs with
  | [] => (Pending event, [])
  | (ctx, q) :: later =>
      let r := handler_list_pages b q event ctx in
      match ended r with
      | Raised e => (Failed e, sent r)
      | Return ev =>
          if decide (ev !! "all_pages_listed" = Some "TRUE")
          then (AllListed ev, sent r)
          else let '(st, pages) := orchestrate b later ev in
               (st, sent r ++ pages)
      end
  end.

(** The keys an invocation appended to its [page] list without sending
    them: the buffer, unless the invocation reached the end of the scan
    and flushed it. *)
Definition pending (r : run) : list string :=
  match ended r with
  | Return ev =>
      if decide (ev !! "all_pages_listed" = Some "TRUE") then [] else buffer r
  | Raised _ => buffer r
  end.

(** The order in which S3 lists keys: ascending byte order. *)
Definition key_lt (a b : string) : Prop := String.ltb a b = true.

Definition listing_order (b : bucket) : Prop := Sorted key_lt b.

(** The listing that an invocation started with [event] scans. *)
Definition listing (b : bucket) (event : gmap string string) : list string :=
  objects_filter b (marker_of (event !! "bookmark")).

(** The keys that the invocations of a run of [orchestrate] left in their
    buffers when they stopped without listing every page. *)
Fixpoint lost_keys (b : bucket) (invs : list (context * sqs_queue))
  (event : gmap string string) : list string :=
  match invs with
  | [] => []
  | (ctx, q) :: later =>
      let r := handler_list_pages b q event ctx in
      match ended r with
      | Raised _ => buffer r
      | Return ev =>
          if decide (ev !! "all_pages_listed" = Some "TRUE") then []
          else buffer r ++ lost_keys b later ev
      end
  end.

End Enumerator.

(** ** [handler_split_page] *)
Module Splitter.
Import Py Exc.
Local Open Scope exc_scope.

(** One entry of a [send_messages] call. *)
Record entry : Type := {
  Id : string;
  MessageBody : string
}.

(** What a [send_messages] call does: it returns a response, which lists
    the ids of the entries the queue refused, or it raises. *)
Inductive send_result : Type :=
| Response (failed : list string)
| SendRaises.

(** The services of one invocation: [uuid4 n] is the [n]-th identifier
    drawn, [json_loads body] the page a record body decodes to ([None]
    when decoding raises), and [send_messages_result n entries] what the
    [n]-th [send_messages] call does with its entries. *)
Record world : Type := {
  uuid4 : nat -> string;
  json_loads : string -> option (list string);
  send_messages_result : nat -> list entry -> send_result
}.

(** What the invocation has done so far: the [send_messages] calls it has
    made (the raising one included) and the number of identifiers drawn. *)
Record state : Type := {
  calls : list (list entry);
  drawn : nat
}.

Definition initial : state := {| calls := []; drawn := 0 |}.

(** [str(uuid.uuid4())] *)
Definition fresh_uuid (w : world) : M state string :=
  fun s => Ok (uuid4 w (drawn s)) {| calls := calls s; drawn := S (drawn s) |}.

(** [s3objects_queue.send_messages(Entries=entries)] *)
Definition send_messages (w : world) (entries : list entry)
  : M state (list string) :=
  fun s =>
    let s' := {| calls := calls s ++ [entries]; drawn := drawn s |} in
    match send_messages_result w (length (calls s)) entries with
    | Response failed => Ok failed s'
    | SendRaises => Raise (ClientError "SendMessageBatch") s'
    end.

(** The list comprehension that builds the [Entries] of one call. *)
Definition entries_of (w : world) (batch : list string) : M state (list entry) :=
  comprehension batch (fun key =>
    id <- fresh_uuid w ;;
    ret {| Id := id; MessageBody := key |}).

(** The body of the inner loop, for one batch; the response of the call is
    dropped. *)
Definition send_batch (w : world) (batch : list string) : M state unit :=
  entries <- entries_of w batch ;;
  send_messages w entries ;;;
  ret tt.

(** The body of the outer loop, for one record of the event. *)
Definition split_record (w : world) (body : string) : M state unit :=
  page <- or_raise JSONDecodeError (json_loads w body) ;;
  batches <- or_raise ValueError (chunks page 10) ;;
  for_each batches (send_batch w).

(** The event is the list of the bodies of its [Records]. *)
Definition handler_split_page (w : world) (records : list string)
  : M state unit :=
  for_each records (split_record w).

(** The keys carried by each call, call by call. *)
Definition keys_sent (s : state) : list (list string) :=
  map (map MessageBody) (calls s).

(** The entries built for a batch when [n] identifiers were drawn before. *)
Fixpoint entries_from (w : world) (n : nat) (batch : list string) : list entry :=
  match batch with
  | [] => []
  | key :: rest =>
      {| Id := uuid4 w n; MessageBody := key |} :: entries_from w (S n) rest
  end.

(** The [n]-th bulk send returns (whatever its response lists as failed),
    or raises. *)
Definition returns_at (w : world) (n : nat) : Prop :=
  forall es, send_messages_result w n es <> SendRaises.

Definition raises_at (w : world) (n : nat) : Prop :=
  forall es, send_messages_result w n es = SendRaises.

(** The batches an event asks for: the chunks of its pages, in order. *)
Definition batches_of (w : world) (records : list string) : list (list string) :=
  flat_map (fun body =>
              match json_loads w body with
              | Some page => default [] (chunks page 10)
              | None => []
              end) records.

(** The entries sent so far carry the identifiers drawn so far, in order. *)
Definition numbered (w : world) (s : state) : Prop :=
  concat (calls s) = entries_from w 0 (concat (keys_sent s))
  /\ drawn s = length (concat (calls s)).

(** Every call made so far has between 1 and 10 entries. *)
Definition sized (s : state) : Prop :=
  Forall (fun es => 1 <= length es <= 10) (calls s).

End Splitter.

(** ** [handler_transform] *)
Module Transformer.
Import Py Exc.
Local Open Scope exc_scope.

(** One [put_metric_data] call: the metric names with their values. *)
Abbreviation metric_data := (list (string * Z)).

(** The services of one invocation.  The source bucket maps a key to the
    content of its object.  [get_raises n], [put_raises n] and
    [put_metric_data_raises n] tell whether the [n]-th call of the
    operation raises.  [json_loads line] is the value a line decodes to
    ([None] when [json.loads] raises) and [json_dumps] the serialisation of
    a dict. *)
Record world : Type := {
  source : gmap string string;
  get_raises : nat -> bool;
  put_raises : nat -> bool;
  put_metric_data_raises : nat -> bool;
  json_loads : string -> option value;
  json_dumps : pydict -> string
}.

(** What the invocation has done so far: the destination bucket, the
    number of [get] and [put] calls made, and the metric calls made (the
    raising ones included). *)
Record state : Type := {
  destination : gmap string string;
  gets_made : nat;
  puts_made : nat;
  metrics : list metric_data
}.

(** [source_s3object.get()['Body'].read()]; a key that is not in the
    bucket raises as well. *)
Definition get_body (w : world) (key : string) : M state string :=
  fun s =>
    let s' := {| destination := destination s; gets_made := S (gets_made s);
                 puts_made := puts_made s; metrics := metrics s |} in
    if get_raises w (gets_made s) then Raise (ClientError "GetObject") s'
    else match source w !! key with
         | Some content => Ok content s'
         | None => Raise (ClientError "GetObject") s'
         end.

(** [destination_s3object.put(Body=body)]: the object is replaced as a
    whole, or the call raises and the bucket is as before. *)
Definition put (w : world) (key body : string) : M state unit :=
  fun s =>
    if put_raises w (puts_made s)
    then Raise (ClientError "PutObject")
           {| destination := destination s; gets_made := gets_made s;
              puts_made := S (puts_made s); metrics := metrics s |}
    else Ok tt
           {| destination := <[key := body]> (destination s);
              gets_made := gets_made s;
              puts_made := S (puts_made s); metrics := metrics s |}.

(** [cloudwatch.put_metric_data(Namespace=..., MetricData=data)] *)
Definition put_metric_data (w : world) (data : metric_data) : M state unit :=
  fun s =>
    let s' := {| destination := destination s; gets_made := gets_made s;
                 puts_made := puts_made s; metrics := metrics s ++ [data] |} in
    if put_metric_data_raises w (length (metrics s))
    then Raise (ClientError "PutMetricData") s'
    else Ok tt s'.

(** The call [flatten(x)] on a decoded line: [x.items()] raises
    [AttributeError] unless [x] is a dict.  ([collections.MutableMapping]
    is the name of the class before Python 3.10, which the module is
    written for.) *)
Definition flatten_call (x : value) : M state pydict :=
  match x with
  | VDict d => ret (Flatten.flatten0 d)
  | _ => raise AttributeError
  end.

(** [json.dumps(flatten(json.loads(line)))] *)
Definition transform_line (w : world) (line : string) : M state string :=
  x <- or_raise JSONDecodeError (json_loads w line) ;;
  d <- flatten_call x ;;
  ret (json_dumps w d).

(** The body of the loop, for the record whose body is [s3object_key]. *)
Definition transform_record (w : world) (s3object_key : string)
  : M state unit :=
  content <- get_body w s3object_key ;;
  let lines := splitlines content in
  items <- comprehension lines (transform_line w) ;;
  put w s3object_key (join (String LF "") items) ;;;
  put_metric_data w
    [("S3ObjectsProcessed", 1%Z); ("LinesProcessed", Z.of_nat (length items))].

(** The event is the list of the bodies of its [Records]. *)
Definition handler_transform (w : world) (records : list string)
  : M state unit :=
  for_each records (transform_record w).

(** The state at the start of an invocation, for a destination bucket. *)
Definition start (dest : gmap string string) : state :=
  {| destination := dest; gets_made := 0; puts_made := 0; metrics := [] |}.

(** The destination content the specification describes for a source
    content: each line is decoded, flattened and serialised on its own, and
    the results are joined by line feeds; there is none when a line does
    not decode to a mapping. *)
Definition line_item (w : world) (line : string) : option string :=
  match json_loads w line with
  | Some (VDict d) => Some (json_dumps w (Flatten.flatten0 d))
  | _ => None
  end.

Fixpoint items_of (w : world) (lines : list string) : option (list string) :=
  match lines with
  | [] => Some []
  | line :: rest =>
      match line_item w line, items_of w rest with
      | Some item, Some items => Some (item :: items)
      | _, _ => None
      end
  end.

Definition body_of (w : world) (content : string) : option string :=
  match items_of w (splitlines content) with
  | Some items => Some (join (String LF "") items)
  | None => None
  end.

(** The metrics of one record, for an object of [lines] lines. *)
Definition metric_of (lines : nat) : metric_data :=
  [("S3ObjectsProcessed", 1%Z); ("LinesProcessed", Z.of_nat lines)].

(** The number of lines of the source object of a key. *)
Definition lines_of (w : world) (key : string) : nat :=
  length (splitlines (default "" (source w !! key))).

(** The destination content for a key, derived from its source object. *)
Definition written (w : world) (key : string) : option string :=
  match source w !! key with
  | Some content => body_of w content
  | None => None
  end.

(** A serialised record that reads back as one line: not empty and
    without a line end. *)
Definition one_line (item : string) : Prop :=
  truthy item = true /\ has_line_break item = false.

(** The state after the [get] of a record. *)
Definition after_get (s : state) : state :=
  {| destination := destination s; gets_made := S (gets_made s);
     puts_made := puts_made s; metrics := metrics s |}.

(** The ways in which the work on one key fails before its metrics. *)
Definition read_fails (w : world) (s : state) (key : string) : Prop :=
  get_raises w (gets_made s) = true \/ source w !! key = None.

Definition transform_fails (w : world) (s : state) (key : string) : Prop :=
  get_raises w (gets_made s) = false
  /\ exists content, source w !! key = Some content /\ body_of w content = None.

Definition write_fails (w : world) (s : state) (key : string) : Prop :=
  get_raises w (gets_made s) = false
  /\ (exists content body,
        source w !! key = Some content /\ body_of w content = Some body)
  /\ put_raises w (puts_made s) = true.

End Transformer.

(** ** Concrete inputs used by the examples *)
Module Fixtures.
Import Py.

(** The keys ["k0"], ["k1"], ... with one digit. *)
Definition key (n : nat) : string :=
  "k" +:+ String (Ascii.ascii_of_nat (48 + n)) "".

Definition page7 : list string := map key (seq 0 7).

(** Eleven keys: two batches, of ten keys and of one key. *)
Definition page11 : list string :=
  map key (seq 0 10) ++ ["ka"].

Definition uuid_of (n : nat) : string :=
  "u" +:+ String (Ascii.ascii_of_nat (48 + n)) "".

(** A splitter world whose queue accepts every call. *)
Definition accepting (page : list string) : Splitter.world :=
  {| Splitter.uuid4 := uuid_of;
     Splitter.json_loads := fun _ => Some page;
     Splitter.send_messages_result := fun _ _ => Splitter.Response [] |}.

(** A splitter world whose queue raises on the first call only. *)
Definition first_call_raises (page : list string) : Splitter.world :=
  {| Splitter.uuid4 := uuid_of;
     Splitter.json_loads := fun _ => Some page;
     Splitter.send_messages_result :=
       fun n _ => match n with
                  | O => Splitter.SendRaises
                  | S _ => Splitter.Response []
                  end |}.

(** A toy JSON codec: the line ["bad"] does not decode, the line ["list"]
    decodes to a sequence, any other line to a nested mapping that holds
    it; a dict is serialised as its keys. *)
Definition toy_loads (line : string) : option value :=
  if String.eqb line "bad" then None
  else if String.eqb line "list" then Some (VList [])
  else Some (VDict [("a", VDict [("b", VStr line)])]).

Definition toy_dumps (d : pydict) : string := join "," (map fst d).

(** A source bucket of three objects; the last one has a line that does
    not decode. *)
Definition objects : gmap string string :=
  <["k1" := "x" +:+ String LF "y"]>
    (<["k2" := "z"]> (<["k3" := "x" +:+ String LF "bad"]> ∅)).

(** A transformer world in which no call raises. *)
Definition healthy : Transformer.world :=
  {| Transformer.source := objects;
     Transformer.get_raises := fun _ => false;
     Transformer.put_raises := fun _ => false;
     Transformer.put_metric_data_raises := fun _ => false;
     Transformer.json_loads := toy_loads;
     Transformer.json_dumps := toy_dumps |}.

(** The same world, but the first [put_metric_data] call raises. *)
Definition metrics_down : Transformer.world :=
  {| Transformer.source := objects;
     Transformer.get_raises := fun _ => false;
     Transformer.put_raises := fun _ => false;
     Transformer.put_metric_data_raises := fun n => Nat.eqb n 0;
     Transformer.json_loads := toy_loads;
     Transformer.json_dumps := toy_dumps |}.

(** A source bucket of three keys, in listing order. *)
Definition bucket3 : list string := [key 0; key 1; key 2].

(** The keys ["k0000"], ["k0001"], ... with four digits, and the bucket of
    the first 2500 of them. *)
Definition digit (n : nat) : Ascii.ascii := Ascii.ascii_of_nat (48 + n mod 10).

Definition key4 (n : nat) : string :=
  "k" +:+ String (digit (n / 1000)) (String (digit (n / 100))
            (String (digit (n / 10)) (String (digit n) ""))).

Definition bucket2500 : list string := map key4 (seq 0 2500).

(** A pages queue that never raises. *)
Definition reliable : Enumerator.sqs_queue :=
  {| Enumerator.send_message_raises := fun _ => false |}.

(** A context with five minutes left at every reading. *)
Definition ample : Enumerator.context :=
  {| Enumerator.get_remaining_time_in_millis := fun _ => 300000%Z |}.

(** A context whose readings fall under 30 seconds from the [n]-th on. *)
Definition runs_out_after (n : nat) : Enumerator.context :=
  {| Enumerator.get_remaining_time_in_millis :=
       fun tick => if Nat.ltb tick n then 300000%Z else 29999%Z |}.

(** Identifiers that never repeat: [n] times the letter i. *)
Fixpoint unary (n : nat) : string :=
  match n with
  | O => ""
  | S m => "i" +:+ unary m
  end.

(** A splitter world with two pages, under the bodies ["p1"] and ["p2"];
    any other body does not decode.  The queue accepts every call. *)
Definition two_pages : Splitter.world :=
  {| Splitter.uuid4 := unary;
     Splitter.json_loads :=
       fun body => if String.eqb body "p1" then Some page11
                   else if String.eqb body "p2" then Some page7
                   else None;
     Splitter.send_messages_result := fun _ _ => Splitter.Response [] |}.

End Fixtures.

(** ** The claims of the specification, as predicates on the embedding *)
Module Claims.
Import Py Exc.

(** Every batch of every page of the event is attempted, whatever the
    bulk sends do. *)
Definition attempts_every_batch (w : Splitter.world) (records : list string) : Prop :=
  forall b, In b (Splitter.batches_of w records) ->
            In b (Splitter.keys_sent
                    (final (Splitter.handler_split_page w records Splitter.initial))).

(** The pages have 1000 keys each, except possibly a last, shorter and
    non-empty one. *)
Definition paged (pages : list (list string)) : Prop :=
  exists full last,
    pages = full ++ last
    /\ Forall (fun p => length p = 1000) full
    /\ (last = [] \/ exists p, last = [p] /\ 1 <= length p < 1000).

(** The invocation returned without having listed every page. *)
Definition yielded (r : Enumerator.run) : Prop :=
  exists ev, Enumerator.ended r = Enumerator.Return ev
             /\ ev !! "all_pages_listed" = Some "FALSE".

(** A dict in which two different paths are joined to the same key. *)
Definition collision : pydict :=
  [("a.b", VInt 1); ("a", VDict [("b", VInt 2)])].

(** Every leaf of [d] is found in [flatten(d)] under its joined path. *)
Definition leaves_under_joined_keys (d : pydict) : Prop :=
  forall p v, In (p, v) (Flatten.leaves d) ->
              dict_get (Flatten.flatten0 d) (Flatten.joined_key p) = Some v.

(** A flat dict in which a value is a sequence that holds a dict. *)
Definition flat_sample : pydict :=
  [("a.b", VInt 1); ("", VStr "x"); ("l", VList [VDict [("k", VNull)]])].

(** A failure of the metrics call is swallowed: the invocation does not
    fail and the object of every record of the batch is written. *)
Definition metrics_failure_is_swallowed (w : Transformer.world)
  (records : list string) : Prop :=
  exists s,
    Transformer.handler_transform w records (Transformer.start ∅) = Ok tt s
    /\ forall key, In key records -> is_Some (Transformer.destination s !! key).

End Claims.

(** * Properties *)

(** ** [chunks] *)
Section ChunksFacts.
Context {A : Type}.
Implicit Types (l : list A) (n c i : nat).

Lemma range_from_length c i n : length (Py.range_from c i n) = c.
Proof. revert i; induction c as [|c IH]; intros i; simpl; [done|]. by rewrite IH. Qed.

Lemma range_from_lookup c i n j :
  j < c -> nth_error (Py.range_from c i n) j = Some (i + j * n).
Proof.
  revert i j; induction c as [|c IH]; intros i j Hj; [lia|].
  destruct j as [|j]; simpl.
  - f_equal; lia.
  - rewrite IH by lia. f_equal; lia.
Qed.

(** The slices taken at [i], [i + n], ... put end to end are one slice. *)
Lemma concat_slices l n c i :
  concat (map (fun k => Py.slice l k (k + n)) (Py.range_from c i n))
  = firstn (c * n) (skipn i l).
Proof.
  revert i; induction c as [|c IH]; intros i; simpl; [done|].
  rewrite IH. unfold Py.slice.
  replace (i + n - i) with n by lia.
  replace (skipn (i + n) l) with (skipn n (skipn i l))
    by (rewrite skipn_skipn; f_equal; lia).
  by rewrite take_take_drop.
Qed.

Lemma range_len_bounds len n :
  n <> 0 -> len <= Py.range_len 0 len n * n < len + n.
Proof.
  intros Hn. unfold Py.range_len. rewrite Nat.sub_0_r.
  pose proof (Nat.div_mod_eq (len + (n - 1)) n) as E.
  pose proof (Nat.mod_upper_bound (len + (n - 1)) n Hn) as B.
  nia.
Qed.

Lemma chunks_some l n :
  n <> 0 ->
  chunks l n
  = Some (map (fun k => Py.slice l k (k + n))
            (Py.range_from (Py.range_len 0 (length l) n) 0 n)).
Proof.
  intros Hn. unfold chunks, Py.range.
  destruct (Nat.eqb_spec n 0) as [->|_]; [done|reflexivity].
Qed.

Lemma chunks_concat l n cs : chunks l n = Some cs -> concat cs = l.
Proof.
  destruct (Nat.eq_dec n 0) as [->|Hn]; [done|].
  rewrite chunks_some by done. intros [= <-].
  rewrite concat_slices. simpl.
  apply firstn_all2. pose proof (range_len_bounds (length l) n Hn); lia.
Qed.

Lemma chunks_length l n cs :
  chunks l n = Some cs -> length cs = (length l + (n - 1)) / n.
Proof.
  destruct (Nat.eq_dec n 0) as [->|Hn]; [done|].
  rewrite chunks_some by done. intros [= <-].
  rewrite length_map, range_from_length. unfold Py.range_len.
  by rewrite Nat.sub_0_r.
Qed.

Lemma chunks_nth l n cs j :
  chunks l n = Some cs -> j < length cs ->
  nth_error cs j = Some (Py.slice l (j * n) (j * n + n)).
Proof.
  destruct (Nat.eq_dec n 0) as [->|Hn]; [done|].
  rewrite chunks_some by done. intros [= <-].
  rewrite length_map, range_from_length. intros Hj.
  rewrite nth_error_map, range_from_lookup by done. reflexivity.
Qed.

Lemma chunks_sizes l n cs :
  chunks l n = Some cs -> Forall (fun b => 1 <= length b <= n) cs.
Proof.
  intros Hc. apply List.Forall_forall. intros b Hin.
  apply In_nth_error in Hin as [j Hj].
  assert (Hlt : j < length cs) by (apply nth_error_Some; congruence).
  rewrite (chunks_nth _ _ _ _ Hc Hlt) in Hj. injection Hj as <-.
  destruct (Nat.eq_dec n 0) as [->|Hn]; [done|].
  rewrite (chunks_length _ _ _ Hc) in Hlt.
  pose proof (Nat.div_mod_eq (length l + (n - 1)) n) as E.
  pose proof (Nat.mod_upper_bound (length l + (n - 1)) n Hn) as B.
  unfold Py.slice. rewrite length_firstn, length_skipn. nia.
Qed.

End ChunksFacts.

(** ** Loops in the exception monad *)
Section ExcFacts.
Import Exc.
Local Open Scope exc_scope.
Context {S A : Type}.

Lemma for_each_app (xs ys : list A) (body : A -> M S unit) (s : S) :
  for_each (xs ++ ys) body s = (for_each xs body ;;; for_each ys body) s.
Proof.
  revert s; induction xs as [|x xs IH]; intros s; simpl; [done|].
  unfold bind in *. destruct (body x s) as [[] s'|e s']; [|done].
  apply IH.
Qed.

Lemma for_each_flat_map {B} (f : B -> list A) (g : B -> M S unit)
  (body : A -> M S unit) (xs : list B) :
  (forall x, In x xs -> forall s, g x s = for_each (f x) body s) ->
  forall s, for_each xs g s = for_each (flat_map f xs) body s.
Proof.
  induction xs as [|x xs IH]; intros Hg s; simpl; [done|].
  rewrite for_each_app. unfold bind.
  rewrite Hg by (by left).
  destruct (for_each (f x) body s) as [[] s'|e s']; [|done].
  apply IH. intros y Hy. apply Hg. by right.
Qed.

End ExcFacts.

(** ** [handler_split_page] *)
Section SplitterFacts.
Import Py Exc Splitter.
Local Open Scope exc_scope.
Variable w : world.

Lemma entries_from_bodies n batch : map MessageBody (entries_from w n batch) = batch.
Proof. revert n; induction batch as [|k r IH]; intros n; simpl; [done|]. by rewrite IH. Qed.

Lemma entries_of_run batch s :
  entries_of w batch s
  = Ok (entries_from w (drawn s) batch)
       {| calls := calls s; drawn := drawn s + length batch |}.
Proof.
  revert s; induction batch as [|k r IH]; intros [cs n]; simpl.
  - unfold ret. do 2 f_equal. lia.
  - unfold entries_of in *. simpl. unfold bind, fresh_uuid, ret. simpl.
    rewrite IH. simpl. do 2 f_equal. lia.
Qed.

Lemma send_batch_run batch s :
  send_batch w batch s
  = let es := entries_from w (drawn s) batch in
    let s' := {| calls := calls s ++ [es]; drawn := drawn s + length batch |} in
    match send_messages_result w (length (calls s)) es with
    | Response _ => Ok tt s'
    | SendRaises => Raise (ClientError "SendMessageBatch") s'
    end.
Proof.
  unfold send_batch, bind. rewrite entries_of_run. unfold send_messages. simpl.
  by destruct (send_messages_result _ _ _).
Qed.

Lemma keys_sent_snoc cs n es m :
  keys_sent {| calls := cs ++ [es]; drawn := m |}
  = keys_sent {| calls := cs; drawn := n |} ++ [map MessageBody es].
Proof. unfold keys_sent. simpl. by rewrite map_app. Qed.

Lemma batches_all_sent bs s :
  (forall m, length (calls s) <= m < length (calls s) + length bs -> returns_at w m) ->
  exists s', for_each bs (send_batch w) s = Ok tt s'
             /\ keys_sent s' = keys_sent s ++ bs.
Proof.
  revert s; induction bs as [|b bs IH]; intros s Hret; simpl.
  - exists s. by rewrite app_nil_r.
  - unfold bind. rewrite send_batch_run. simpl.
    destruct (send_messages_result w (length (calls s)) (entries_from w (drawn s) b))
      as [failed|] eqn:E.
    + edestruct IH as (s' & Hrun & Hkeys); last first.
      { exists s'. split; [exact Hrun|]. rewrite Hkeys.
        rewrite (keys_sent_snoc _ (drawn s)), entries_from_bodies.
        destruct s. by rewrite <- app_assoc. }
      simpl. intros m Hm. apply Hret. rewrite length_app in Hm. simpl in *. lia.
    + exfalso. eapply (Hret (length (calls s))); [simpl; lia|exact E].
Qed.

Lemma batches_stop_at_raise bs s n :
  n < length bs ->
  (forall m, length (calls s) <= m < length (calls s) + n -> returns_at w m) ->
  raises_at w (length (calls s) + n) ->
  exists s', for_each bs (send_batch w) s
             = Raise (ClientError "SendMessageBatch") s'
             /\ keys_sent s' = keys_sent s ++ firstn (S n) bs.
Proof.
  revert s n; induction bs as [|b bs IH]; intros s n Hn Hret Hraise;
    simpl in Hn; [lia|].
  simpl. unfold bind. rewrite send_batch_run. simpl.
  destruct n as [|n].
  - rewrite Nat.add_0_r in Hraise. rewrite Hraise.
    eexists; split; [reflexivity|].
    rewrite (keys_sent_snoc _ (drawn s)), entries_from_bodies.
    destruct s. by rewrite firstn_O.
  - destruct (send_messages_result w (length (calls s)) (entries_from w (drawn s) b))
      as [failed|] eqn:E.
    + edestruct (IH {| calls := calls s ++ [entries_from w (drawn s) b];
                       drawn := drawn s + length b |} n)
        as (s' & Hrun & Hkeys).
      * lia.
      * simpl. rewrite length_app. simpl. intros m Hm. apply Hret. lia.
      * simpl. rewrite length_app. simpl.
        replace (length (calls s) + 1 + n) with (length (calls s) + S n) by lia.
        exact Hraise.
      * exists s'. split; [exact Hrun|]. rewrite Hkeys.
        rewrite (keys_sent_snoc _ (drawn s)), entries_from_bodies.
        destruct s. by rewrite <- app_assoc.
    + exfalso. eapply (Hret (length (calls s))); [lia|exact E].
Qed.

Lemma split_record_batches body s :
  is_Some (json_loads w body) ->
  split_record w body s
  = for_each (match json_loads w body with
              | Some page => default [] (chunks page 10)
              | None => []
              end) (send_batch w) s.
Proof.
  intros [page Hp]. unfold split_record, bind. rewrite Hp.
  pose proof (chunks_some page 10) as Hc. rewrite Hc by done. reflexivity.
Qed.

Lemma handler_split_page_batches records s :
  Forall (fun body => is_Some (json_loads w body)) records ->
  handler_split_page w records s
  = for_each (batches_of w records) (send_batch w) s.
Proof.
  intros Hdec. unfold handler_split_page, batches_of.
  apply (for_each_flat_map
           (fun body => match json_loads w body with
                        | Some page => default [] (chunks page 10)
                        | None => []
                        end)).
  intros body Hin s'. apply split_record_batches.
  rewrite List.Forall_forall in Hdec. by apply Hdec.
Qed.

End SplitterFacts.

Section SplitterClaims.
Import Py Exc Splitter.

Lemma calls_keys_length s : length (keys_sent s) = length (calls s).
Proof. unfold keys_sent. by rewrite length_map. Qed.

(** C4. A page of K keys is sent in exactly ceil(K/10) bulk calls of at
    most 10 entries each; the keys of the calls, put end to end, are the
    page, and the j-th call carries the slice [page[10j : 10j + 10]].  A
    page of 7 keys is sent in one call of 7 entries. *)
Theorem split_page_bulk_sends (w : world) (body : string) (page : list string) :
  json_loads w body = Some page ->
  (forall n, returns_at w n) ->
  exists s,
    handler_split_page w [body] initial = Ok tt s
    /\ length (calls s) = (length page + 9) / 10
    /\ length page <= 10 * length (calls s) < length page + 10
    /\ Forall (fun es => 1 <= length es <= 10) (calls s)
    /\ concat (keys_sent s) = page
    /\ (forall j, j < length (calls s) ->
          nth_error (keys_sent s) j = Some (slice page (j * 10) (j * 10 + 10)))
    /\ (length page = 7 -> keys_sent s = [page]).
Proof.
  intros Hp Hret.
  assert (Hc := chunks_some page 10 ltac:(done)).
  set (cs := map _ _) in Hc.
  assert (Hb : batches_of w [body] = cs).
  { unfold batches_of. cbn [flat_map]. rewrite Hp, Hc. apply app_nil_r. }
  destruct (batches_all_sent w cs initial) as (s & Hrun & Hkeys).
  { intros m _. apply Hret. }
  simpl in Hkeys.
  assert (Hlen : length (calls s) = (length page + 9) / 10).
  { rewrite <- calls_keys_length, Hkeys. apply (chunks_length _ _ _ Hc). }
  exists s. split; [|split; [|split; [|split; [|split; [|split]]]]].
  - rewrite handler_split_page_batches, Hb; [exact Hrun|].
    constructor; [by rewrite Hp|constructor].
  - exact Hlen.
  - rewrite Hlen.
    pose proof (Nat.div_mod_eq (length page + 9) 10).
    pose proof (Nat.mod_upper_bound (length page + 9) 10 ltac:(done)). lia.
  - pose proof (chunks_sizes _ _ _ Hc) as Hs. rewrite <- Hkeys in Hs.
    unfold keys_sent in Hs. rewrite List.Forall_map in Hs.
    eapply List.Forall_impl; [|exact Hs]. simpl. intros es.
    by rewrite length_map.
  - rewrite Hkeys. apply (chunks_concat _ _ _ Hc).
  - intros j Hj. rewrite Hkeys. apply (chunks_nth _ _ _ _ Hc).
    by rewrite <- Hkeys, calls_keys_length.
  - intros H7. rewrite Hkeys. subst cs. rewrite H7. simpl.
    unfold slice. rewrite skipn_O, firstn_all2 by lia. reflexivity.
Qed.

Lemma split_page_bulk_sends_witness :
  exists s,
    handler_split_page (Fixtures.accepting Fixtures.page7) ["page"] initial = Ok tt s
    /\ length (calls s) = (length Fixtures.page7 + 9) / 10
    /\ length Fixtures.page7 <= 10 * length (calls s) < length Fixtures.page7 + 10
    /\ Forall (fun es => 1 <= length es <= 10) (calls s)
    /\ concat (keys_sent s) = Fixtures.page7
    /\ (forall j, j < length (calls s) ->
          nth_error (keys_sent s) j
          = Some (slice Fixtures.page7 (j * 10) (j * 10 + 10)))
    /\ (length Fixtures.page7 = 7 -> keys_sent s = [Fixtures.page7]).
Proof.
  apply (split_page_bulk_sends (Fixtures.accepting Fixtures.page7) "page" Fixtures.page7).
  - reflexivity.
  - intros n es. simpl. discriminate.
Defined.

(** C2, as stated, fails: when the first bulk send of a page of eleven
    keys raises, the second batch is never attempted. *)
Lemma failed_send_aborts_the_page :
  ~ Claims.attempts_every_batch
      (Fixtures.first_call_raises Fixtures.page11) ["page"].
Proof.
  intros H. specialize (H ["ka"]).
  assert (Hin : In ["ka"]
                  (batches_of (Fixtures.first_call_raises Fixtures.page11) ["page"])).
  { vm_compute. right. by left. }
  apply H in Hin. vm_compute in Hin.
  destruct Hin as [Heq|[]]. discriminate Heq.
Qed.

(** C2, amended.  For an event whose records all decode: if every bulk
    send returns (whatever its response reports as failed), every batch is
    attempted, in order; if the [n]-th bulk send is the first to raise,
    the handler fails with that exception and the batches attempted are
    exactly the first [n + 1] ones: no later batch of the page or of the
    following pages is attempted. *)
Theorem split_page_stops_at_first_raise (w : world) (records : list string) :
  Forall (fun body => is_Some (json_loads w body)) records ->
  ((forall m, m < length (batches_of w records) -> returns_at w m) ->
   exists s, handler_split_page w records initial = Ok tt s
             /\ keys_sent s = batches_of w records)
  /\ (forall n, n < length (batches_of w records) ->
        (forall m, m < n -> returns_at w m) -> raises_at w n ->
        exists s, handler_split_page w records initial
                  = Raise (ClientError "SendMessageBatch") s
                  /\ keys_sent s = firstn (S n) (batches_of w records)).
Proof.
  intros Hdec. split.
  - intros Hret.
    destruct (batches_all_sent w (batches_of w records) initial) as (s & Hrun & Hk).
    { simpl. intros m Hm. apply Hret. lia. }
    exists s. by rewrite handler_split_page_batches.
  - intros n Hn Hret Hraise.
    destruct (batches_stop_at_raise w (batches_of w records) initial n)
      as (s & Hrun & Hk); [done| |done|].
    { simpl. intros m Hm. apply Hret. lia. }
    exists s. by rewrite handler_split_page_batches.
Qed.

Lemma split_page_stops_at_first_raise_witness :
  exists s,
    handler_split_page (Fixtures.first_call_raises Fixtures.page11) ["page"] initial
    = Raise (ClientError "SendMessageBatch") s
    /\ keys_sent s = [map Fixtures.key (seq 0 10)].
Proof.
  destruct (split_page_stops_at_first_raise
              (Fixtures.first_call_raises Fixtures.page11) ["page"]) as [_ H].
  - constructor; [by eexists|constructor].
  - apply (H 0).
    + vm_compute. lia.
    + intros m Hm. lia.
    + intros es. reflexivity.
Defined.

End SplitterClaims.

(** ** [flatten] *)
Section FlattenFacts.
Import Py Flatten.

(** Induction on a value that goes through the entries of a dict. *)
Lemma value_dict_ind (P : value -> Prop) :
  (forall v, is_mapping v = false -> P v) ->
  (forall d, Forall (fun kv => P (snd kv)) d -> P (VDict d)) ->
  forall v, P v.
Proof.
  intros Hleaf Hdict. fix IH 1.
  intros [| | | | |d]; try (apply Hleaf; reflexivity).
  apply Hdict. revert d. fix IHd 1.
  intros [|[k v] d]; constructor; [apply IH|apply IHd].
Qed.

Lemma flatten_entry_dict sep nk d :
  flatten_entry sep nk (VDict d) = flatten d nk sep.
Proof.
  unfold flatten. simpl. f_equal.
  induction d as [|[k v] d IH]; simpl; [done|]. by rewrite IH.
Qed.

Lemma flatten_entry_leaf sep nk v :
  is_mapping v = false -> flatten_entry sep nk v = [(nk, v)].
Proof. by destruct v. Qed.

Lemma leaves_val_dict d :
  leaves_val (VDict d)
  = flat_map (fun kv => map (fun pv => (fst kv :: fst pv, snd pv))
                          (leaves_val (snd kv))) d.
Proof. simpl. induction d as [|[k v] d IH]; simpl; [done|]. by rewrite IH. Qed.

Lemma leaves_val_leaf v : is_mapping v = false -> leaves_val v = [([], v)].
Proof. by destruct v. Qed.

(** *** [dict(items)] *)

Lemma dict_set_fresh d k v :
  ~ In k (map fst d) -> dict_set d k v = d ++ [(k, v)].
Proof.
  induction d as [|[k' v'] d IH]; simpl; intros Hk; [done|].
  destruct (String.eqb_spec k' k) as [->|_]; [tauto|].
  rewrite IH by tauto. done.
Qed.

Lemma fold_dict_set_nodup items acc :
  List.NoDup (map fst (acc ++ items)) ->
  fold_left (fun d kv => dict_set d (fst kv) (snd kv)) items acc = acc ++ items.
Proof.
  revert acc; induction items as [|[k v] items IH]; intros acc Hnd; simpl.
  - by rewrite app_nil_r.
  - assert (Hfresh : ~ In k (map fst acc)).
    { rewrite map_app in Hnd. simpl in Hnd.
      apply List.NoDup_remove_2 in Hnd. rewrite in_app_iff in Hnd. tauto. }
    rewrite dict_set_fresh by done.
    rewrite IH; rewrite <- app_assoc; done.
Qed.

Lemma dict_of_items_nodup items :
  List.NoDup (map fst items) -> dict_of_items items = items.
Proof. intros H. unfold dict_of_items. by rewrite fold_dict_set_nodup. Qed.

Lemma dict_set_values (Q : value -> Prop) d k v :
  Forall (fun kv => Q (snd kv)) d -> Q v ->
  Forall (fun kv => Q (snd kv)) (dict_set d k v).
Proof.
  induction 1 as [|[k' v'] d Hh Ht IH]; intros Hv; simpl.
  - by constructor.
  - destruct (String.eqb k' k); constructor; auto.
Qed.

Lemma dict_of_items_values (Q : value -> Prop) items :
  Forall (fun kv => Q (snd kv)) items ->
  Forall (fun kv => Q (snd kv)) (dict_of_items items).
Proof.
  unfold dict_of_items.
  assert (G : forall acc, Forall (fun kv => Q (snd kv)) acc ->
              Forall (fun kv => Q (snd kv)) items ->
              Forall (fun kv => Q (snd kv))
                (fold_left (fun d kv => dict_set d (fst kv) (snd kv)) items acc)).
  { induction items as [|[k v] items IH]; intros acc Ha Hi; simpl; [done|].
    inversion Hi; subst. apply IH; [|done]. by apply dict_set_values. }
  intros H. by apply G.
Qed.

Lemma dict_get_nodup (d : pydict) k v :
  List.NoDup (map fst d) -> In (k, v) d -> dict_get d k = Some v.
Proof.
  induction d as [|[k' v'] d IH]; simpl; intros Hnd Hin; [done|].
  inversion Hnd as [|? ? Hk Hnd']; subst.
  destruct Hin as [[= -> ->]|Hin].
  - by rewrite String.eqb_refl.
  - destruct (String.eqb_spec k' k) as [->|_]; [|by apply IH].
    exfalso. apply Hk. apply in_map_iff. by exists (k, v).
Qed.

(** *** The result has one level *)

Lemma flatten_entry_one_level sep v :
  forall nk, Forall (fun kv => is_mapping (snd kv) = false) (flatten_entry sep nk v).
Proof.
  induction v as [v Hv|d IH] using value_dict_ind; intros nk.
  - rewrite flatten_entry_leaf by done. by repeat constructor.
  - rewrite flatten_entry_dict. unfold flatten.
    apply (dict_of_items_values (fun x => is_mapping x = false)).
    induction IH as [|[k v] d Hh Ht IHd]; simpl; [constructor|].
    apply Forall_app. split; [apply Hh|apply IHd].
Qed.

Lemma flatten_one_level d parent_key sep :
  Forall (fun kv => is_mapping (snd kv) = false) (flatten d parent_key sep).
Proof. rewrite <- flatten_entry_dict. apply flatten_entry_one_level. Qed.

End FlattenFacts.

Section FlattenPaths.
Import Py Flatten.

Lemma string_append_assoc (a b c : string) : (a +:+ b) +:+ c = a +:+ (b +:+ c).
Proof.
  induction a as [|x a IH]; [done|].
  change (String x ((a +:+ b) +:+ c) = String x (a +:+ (b +:+ c))).
  by rewrite IH.
Qed.

Lemma truthy_append a b : truthy a = true -> truthy (a +:+ b) = true.
Proof. by destruct a. Qed.

Lemma new_key_truthy nk sep k :
  truthy nk = true -> new_key nk sep k = nk +:+ sep +:+ k.
Proof. unfold new_key. by intros ->. Qed.

(** Joining after the first two components were joined changes nothing. *)
Lemma join_dot a b p : join "." ((a +:+ "." +:+ b) :: p) = join "." (a :: b :: p).
Proof.
  destruct p as [|c r]; [done|].
  change (join "." ((a +:+ "." +:+ b) :: c :: r))
    with ((a +:+ "." +:+ b) +:+ "." +:+ join "." (c :: r)).
  change (join "." (a :: b :: c :: r))
    with (a +:+ "." +:+ b +:+ "." +:+ join "." (c :: r)).
  by rewrite !string_append_assoc.
Qed.

Lemma NoDup_map_app_l {X Y} (f : X -> Y) (l1 l2 : list X) :
  List.NoDup (map f (l1 ++ l2)) -> List.NoDup (map f l1).
Proof. rewrite map_app. apply List.NoDup_app_remove_r. Qed.

Lemma NoDup_map_app_r {X Y} (f : X -> Y) (l1 l2 : list X) :
  List.NoDup (map f (l1 ++ l2)) -> List.NoDup (map f l2).
Proof. rewrite map_app. apply List.NoDup_app_remove_l. Qed.

(** Below a non-empty compound key and without colliding keys, the items of
    an entry are its leaves under their joined paths. *)
Lemma flatten_entry_paths v :
  forall nk,
    truthy nk = true ->
    List.NoDup (map (fun pv => join "." (nk :: fst pv)) (leaves_val v)) ->
    flatten_entry "." nk v
    = map (fun pv => (join "." (nk :: fst pv), snd pv)) (leaves_val v).
Proof.
  induction v as [v Hv|d IH] using value_dict_ind; intros nk Hnk Hnd.
  - by rewrite flatten_entry_leaf, leaves_val_leaf.
  - rewrite flatten_entry_dict. unfold flatten.
    rewrite leaves_val_dict in *.
    assert (E : flat_map (fun kv => flatten_entry "." (new_key nk "." (fst kv)) (snd kv)) d
                = map (fun pv => (join "." (nk :: fst pv), snd pv))
                    (flat_map (fun kv => map (fun pv => (fst kv :: fst pv, snd pv))
                                           (leaves_val (snd kv))) d)).
    { clear -IH Hnk Hnd.
      induction IH as [|[k v] d Hh Ht IHd]; cbn [flat_map fst snd] in *; [done|].
      rewrite map_app. f_equal.
      - rewrite new_key_truthy by done.
        rewrite Hh.
        + rewrite map_map. apply map_ext. intros [p x]. cbn [fst snd]. by rewrite join_dot.
        + by apply truthy_append.
        + apply NoDup_map_app_l in Hnd. rewrite map_map in Hnd.
          erewrite map_ext; [exact Hnd|]. intros [p x]. cbn [fst snd]. by rewrite join_dot.
      - apply IHd. by apply NoDup_map_app_r in Hnd. }
    rewrite E. apply dict_of_items_nodup. by rewrite map_map.
Qed.

Lemma flatten0_paths d :
  (forall k v, In (k, v) d -> is_mapping v = true -> truthy k = true) ->
  List.NoDup (map (fun pv => joined_key (fst pv)) (leaves d)) ->
  flatten0 d = map (fun pv => (joined_key (fst pv), snd pv)) (leaves d).
Proof.
  unfold flatten0, flatten, leaves, joined_key. rewrite leaves_val_dict.
  intros Hkeys Hnd.
  assert (E : flat_map (fun kv => flatten_entry "." (new_key "" "." (fst kv)) (snd kv)) d
              = map (fun pv => (join "." (fst pv), snd pv))
                  (flat_map (fun kv => map (fun pv => (fst kv :: fst pv, snd pv))
                                         (leaves_val (snd kv))) d)).
  { clear -Hkeys Hnd.
    induction d as [|[k v] d IHd]; cbn [flat_map fst snd] in *; [done|].
    rewrite map_app. f_equal.
    - change (new_key "" "." k) with k.
      destruct (is_mapping v) eqn:Hv.
      + rewrite flatten_entry_paths.
        * by rewrite map_map.
        * apply (Hkeys k v); [by left|done].
        * apply NoDup_map_app_l in Hnd. by rewrite map_map in Hnd.
      + by rewrite flatten_entry_leaf, leaves_val_leaf.
    - apply IHd.
      + intros k' v' Hin. apply Hkeys. by right.
      + by apply NoDup_map_app_r in Hnd. }
  rewrite E. apply dict_of_items_nodup. by rewrite map_map.
Qed.

(** C5, as stated, fails: a leaf is lost when a later leaf has the same
    joined key. *)
Lemma flatten_collision_loses_leaf :
  ~ Claims.leaves_under_joined_keys Claims.collision.
Proof.
  intros H. specialize (H ["a.b"] (VInt 1)).
  assert (Hin : In (["a.b"], VInt 1) (leaves Claims.collision)) by (by left).
  apply H in Hin. vm_compute in Hin. discriminate Hin.
Qed.

(** C5, amended.  When no top-level key that holds a mapping is the empty
    string and no two leaves of [d] have the same joined key, [flatten(d)]
    has one level, its entries are exactly the leaves of [d] (sequences
    included) under their paths joined by ["."], and every leaf is found
    under that key.  On the fixture the result is
    [{"a.b": 1, "a.c.d": 2}]. *)
Theorem flatten_leaves_joined_keys (d : pydict) :
  (forall k v, In (k, v) d -> is_mapping v = true -> truthy k = true) ->
  List.NoDup (map (fun pv => joined_key (fst pv)) (leaves d)) ->
  Forall (fun kv => is_mapping (snd kv) = false) (flatten0 d)
  /\ flatten0 d = map (fun pv => (joined_key (fst pv), snd pv)) (leaves d)
  /\ (forall p v, In (p, v) (leaves d) ->
                  dict_get (flatten0 d) (joined_key p) = Some v)
  /\ flatten0 fixture = [("a.b", VInt 1); ("a.c.d", VInt 2)].
Proof.
  intros Hkeys Hnd. pose proof (flatten0_paths d Hkeys Hnd) as E.
  split; [apply flatten_one_level|]. split; [exact E|]. split; [|reflexivity].
  intros p v Hin. rewrite E. apply dict_get_nodup.
  - by rewrite map_map.
  - apply in_map_iff. by exists (p, v).
Qed.

Lemma flatten_leaves_joined_keys_witness :
  Forall (fun kv => is_mapping (snd kv) = false) (flatten0 fixture)
  /\ flatten0 fixture
     = map (fun pv => (joined_key (fst pv), snd pv)) (leaves fixture)
  /\ (forall p v, In (p, v) (leaves fixture) ->
                  dict_get (flatten0 fixture) (joined_key p) = Some v)
  /\ flatten0 fixture = [("a.b", VInt 1); ("a.c.d", VInt 2)].
Proof.
  apply (flatten_leaves_joined_keys fixture).
  - intros k v [[= <- <-]|[]] _. reflexivity.
  - vm_compute. repeat constructor; simpl; intuition discriminate.
Defined.

(** C9. On a dict none of whose values is a mapping, [flatten] is the
    identity, so flattening twice is flattening once. *)
Theorem flatten_flat_idempotent (m : pydict) :
  wf_dict m ->
  Forall (fun kv => is_mapping (snd kv) = false) m ->
  flatten0 m = m /\ flatten0 (flatten0 m) = flatten0 m.
Proof.
  intros Hwf Hflat.
  assert (E : flatten0 m = m).
  { unfold flatten0, flatten.
    assert (F : flat_map (fun kv => flatten_entry "." (new_key "" "." (fst kv)) (snd kv)) m = m).
    { clear Hwf. induction Hflat as [|[k v] m Hv Ht IH]; simpl; [done|].
      change (new_key "" "." k) with k.
      rewrite flatten_entry_leaf by done. simpl. by rewrite IH. }
    rewrite F. by apply dict_of_items_nodup. }
  split; [exact E|]. by rewrite !E.
Qed.

Lemma flatten_flat_idempotent_witness :
  flatten0 Claims.flat_sample = Claims.flat_sample
  /\ flatten0 (flatten0 Claims.flat_sample) = flatten0 Claims.flat_sample.
Proof.
  apply (flatten_flat_idempotent Claims.flat_sample).
  - unfold wf_dict. vm_compute. repeat constructor; simpl; intuition discriminate.
  - repeat constructor.
Defined.

End FlattenPaths.

(** ** [handler_transform] *)
Section TransformerFacts.
Import Py Exc Transformer.
Local Open Scope exc_scope.
Variable w : world.

Lemma for_each_raise_at {S A} (body : A -> M S unit) pre x post s0 s1 e s2 :
  for_each pre body s0 = Ok tt s1 ->
  body x s1 = Raise e s2 ->
  for_each (pre ++ x :: post) body s0 = Raise e s2.
Proof.
  intros Hpre Hx. rewrite for_each_app. unfold bind. rewrite Hpre.
  simpl. unfold bind. by rewrite Hx.
Qed.

Lemma transform_line_item line s :
  transform_line w line s
  = match line_item w line with
    | Some item => Ok item s
    | None =>
        Raise (match json_loads w line with
               | None => JSONDecodeError
               | Some _ => AttributeError
               end) s
    end.
Proof.
  unfold transform_line, line_item, bind, or_raise.
  destruct (json_loads w line) as [[]|]; reflexivity.
Qed.

Lemma comprehension_items lines items s :
  items_of w lines = Some items ->
  comprehension lines (transform_line w) s = Ok items s.
Proof.
  revert items; induction lines as [|line rest IH]; intros items; simpl.
  - by intros [= <-].
  - unfold bind. rewrite transform_line_item.
    destruct (line_item w line) as [item|]; [|done].
    destruct (items_of w rest) as [items'|]; [|done].
    intros [= <-]. by rewrite (IH items').
Qed.

Lemma comprehension_fails lines s :
  items_of w lines = None ->
  exists e, comprehension lines (transform_line w) s = Raise e s.
Proof.
  induction lines as [|line rest IH]; simpl; [done|].
  unfold bind. rewrite transform_line_item.
  destruct (line_item w line) as [item|]; [|by eexists].
  destruct (items_of w rest) as [items'|]; [done|].
  intros _. destruct (IH eq_refl) as [e He]. rewrite He. by eexists.
Qed.

Lemma transform_record_read_fails key s :
  read_fails w s key ->
  transform_record w key s = Raise (ClientError "GetObject") (after_get s).
Proof.
  intros [Hg|Hs]; unfold transform_record, bind, get_body.
  - by rewrite Hg.
  - rewrite Hs. by destruct (get_raises w (gets_made s)).
Qed.

Lemma transform_record_transform_fails key s :
  transform_fails w s key ->
  exists e, transform_record w key s = Raise e (after_get s).
Proof.
  intros (Hg & content & Hs & Hb). unfold transform_record, bind, get_body.
  rewrite Hg, Hs. unfold body_of in Hb.
  destruct (items_of w (splitlines content)) eqn:Hi; [done|].
  destruct (comprehension_fails _ (after_get s) Hi) as [e He].
  exists e. unfold after_get in He. by rewrite He.
Qed.

Lemma transform_record_write_fails key s :
  write_fails w s key ->
  transform_record w key s
  = Raise (ClientError "PutObject")
      {| destination := destination s; gets_made := S (gets_made s);
         puts_made := S (puts_made s); metrics := metrics s |}.
Proof.
  intros (Hg & (content & body & Hs & Hb) & Hp).
  unfold transform_record, bind, get_body. rewrite Hg, Hs.
  unfold body_of in Hb.
  destruct (items_of w (splitlines content)) as [items|] eqn:Hi; [|done].
  rewrite (comprehension_items _ _ _ Hi). unfold put. simpl. by rewrite Hp.
Qed.

Lemma transform_record_written key s content body :
  get_raises w (gets_made s) = false ->
  source w !! key = Some content ->
  body_of w content = Some body ->
  put_raises w (puts_made s) = false ->
  exists data,
    let s' := {| destination := <[key := body]> (destination s);
                 gets_made := S (gets_made s);
                 puts_made := S (puts_made s);
                 metrics := metrics s ++ [data] |} in
    transform_record w key s
    = if put_metric_data_raises w (length (metrics s))
      then Raise (ClientError "PutMetricData") s'
      else Ok tt s'.
Proof.
  intros Hg Hs Hb Hp. unfold body_of in Hb.
  destruct (items_of w (splitlines content)) as [items|] eqn:Hi; [|done].
  injection Hb as <-.
  exists [("S3ObjectsProcessed", 1%Z); ("LinesProcessed", Z.of_nat (length items))].
  unfold transform_record, bind, get_body. rewrite Hg, Hs.
  rewrite (comprehension_items _ _ _ Hi). unfold put. simpl. rewrite Hp.
  unfold put_metric_data. simpl.
  by destruct (put_metric_data_raises w (length (metrics s))).
Qed.

(** A record that is processed to its end was read, transformed and
    written. *)
Lemma transform_record_ok key s s' :
  transform_record w key s = Ok tt s' ->
  exists content body,
    source w !! key = Some content
    /\ body_of w content = Some body
    /\ destination s' = <[key := body]> (destination s).
Proof.
  unfold transform_record, bind, get_body.
  destruct (get_raises w (gets_made s)); [done|].
  destruct (source w !! key) as [content|] eqn:Hs; [|done].
  destruct (items_of w (splitlines content)) as [items|] eqn:Hi.
  - rewrite (comprehension_items _ _ _ Hi). unfold put. simpl.
    destruct (put_raises w (puts_made s)); [done|].
    unfold put_metric_data. simpl.
    destruct (put_metric_data_raises w (length (metrics s))); [done|].
    intros [= <-]. exists content, (join (String LF "") items).
    unfold body_of. by rewrite Hi.
  - destruct (comprehension_fails _ (after_get s) Hi) as [e He].
    unfold after_get in He. by rewrite He.
Qed.

End TransformerFacts.

Section TransformerClaims.
Import Py Exc Transformer.

(** C7. When the read of a record, the decoding or flattening of one of its
    lines, or the write of its object fails, the handler fails with the
    exception; the destination bucket is as the records before it left it,
    no metric is emitted for it, and unless it is the write that failed no
    write was attempted at all. *)
Theorem transform_failure_propagates (w : world) (pre post : list string)
  (key : string) (s0 s1 : state) :
  handler_transform w pre s0 = Ok tt s1 ->
  read_fails w s1 key \/ transform_fails w s1 key \/ write_fails w s1 key ->
  exists e s2,
    handler_transform w (pre ++ key :: post) s0 = Raise e s2
    /\ destination s2 = destination s1
    /\ metrics s2 = metrics s1
    /\ (read_fails w s1 key \/ transform_fails w s1 key ->
        puts_made s2 = puts_made s1).
Proof.
  intros Hpre [Hr|[Ht|Hw]].
  - exists (ClientError "GetObject"), (after_get s1).
    split; [|by repeat split].
    eapply for_each_raise_at; [exact Hpre|].
    by apply transform_record_read_fails.
  - destruct (transform_record_transform_fails w key s1 Ht) as [e He].
    exists e, (after_get s1). split; [|by repeat split].
    eapply for_each_raise_at; [exact Hpre|exact He].
  - eexists _, _. split.
    { eapply for_each_raise_at; [exact Hpre|].
      by apply transform_record_write_fails. }
    simpl. repeat split.
    destruct Hw as (Hg & (content & body & Hs & Hb) & Hp).
    intros [[Hg'|Hs']|(_ & content' & Hs' & Hb')]; congruence.
Qed.

Lemma transform_failure_propagates_witness :
  exists e s2,
    handler_transform Fixtures.healthy (["k1"] ++ "k3" :: ["k2"]) (start ∅)
    = Raise e s2
    /\ destination s2 = {["k1" := "a.b" +:+ String LF "a.b"]}
    /\ metrics s2 = [[("S3ObjectsProcessed", 1%Z); ("LinesProcessed", 2%Z)]]
    /\ puts_made s2 = 1.
Proof.
  destruct (transform_failure_propagates Fixtures.healthy ["k1"] ["k2"] "k3"
              (start ∅)
              {| destination := {["k1" := "a.b" +:+ String LF "a.b"]};
                 gets_made := 1; puts_made := 1;
                 metrics := [[("S3ObjectsProcessed", 1%Z);
                              ("LinesProcessed", 2%Z)]] |})
    as (e & s2 & Hrun & Hd & Hm & Hp).
  - vm_compute. reflexivity.
  - right. left. split; [reflexivity|].
    exists ("x" +:+ String LF "bad"). split; reflexivity.
  - exists e, s2. split; [exact Hrun|]. split; [exact Hd|]. split; [exact Hm|].
    apply Hp. right. split; [reflexivity|].
    exists ("x" +:+ String LF "bad"). split; reflexivity.
Defined.

(** C3, as stated, fails: when the metrics call of the first record
    raises, the invocation fails and the second record is not processed. *)
Lemma metrics_failure_fails_the_batch :
  ~ Claims.metrics_failure_is_swallowed Fixtures.metrics_down ["k1"; "k2"].
Proof.
  intros (s & Hrun & _). vm_compute in Hrun. discriminate Hrun.
Qed.

(** C3, amended.  When the read, the transform and the write of a record
    have succeeded and its metrics call raises, the exception is not
    swallowed: the handler fails with it, the object of that key stays
    written, and the records after it are not processed (no further read
    or write is made). *)
Theorem metrics_failure_propagates (w : world) (pre post : list string)
  (key content body : string) (s0 s1 : state) :
  handler_transform w pre s0 = Ok tt s1 ->
  get_raises w (gets_made s1) = false ->
  source w !! key = Some content ->
  body_of w content = Some body ->
  put_raises w (puts_made s1) = false ->
  put_metric_data_raises w (length (metrics s1)) = true ->
  exists s2,
    handler_transform w (pre ++ key :: post) s0
    = Raise (ClientError "PutMetricData") s2
    /\ destination s2 = <[key := body]> (destination s1)
    /\ gets_made s2 = S (gets_made s1)
    /\ puts_made s2 = S (puts_made s1)
    /\ length (metrics s2) = S (length (metrics s1)).
Proof.
  intros Hpre Hg Hs Hb Hp Hm.
  destruct (transform_record_written w key s1 content body Hg Hs Hb Hp)
    as [data Hrun].
  simpl in Hrun. rewrite Hm in Hrun.
  eexists. split.
  { eapply for_each_raise_at; [exact Hpre|exact Hrun]. }
  simpl. repeat split. rewrite length_app. simpl. lia.
Qed.

Lemma metrics_failure_propagates_witness :
  exists s2,
    handler_transform Fixtures.metrics_down ([] ++ "k1" :: ["k2"]) (start ∅)
    = Raise (ClientError "PutMetricData") s2
    /\ destination s2 = <["k1" := "a.b" +:+ String LF "a.b"]> ∅
    /\ gets_made s2 = 1
    /\ puts_made s2 = 1
    /\ length (metrics s2) = 1.
Proof.
  apply (metrics_failure_propagates Fixtures.metrics_down [] ["k2"] "k1"
           ("x" +:+ String LF "y") ("a.b" +:+ String LF "a.b")
           (start ∅) (start ∅)); reflexivity.
Defined.

(** C8. The write replaces the object: after a successful run on a key the
    destination holds, at that key, the content derived from the source
    object alone, whatever was there before; a second successful run
    leaves the same bytes there. *)
Theorem transform_twice_same_content (w : world) (key : string)
  (s s' s'' : state) :
  handler_transform w [key] s = Ok tt s' ->
  handler_transform w [key] s' = Ok tt s'' ->
  exists content body,
    source w !! key = Some content
    /\ body_of w content = Some body
    /\ destination s' = <[key := body]> (destination s)
    /\ destination s' !! key = Some body
    /\ destination s'' !! key = Some body
    /\ destination s'' = destination s'.
Proof.
  unfold handler_transform. simpl. unfold bind.
  destruct (transform_record w key s) as [[] t|] eqn:H1; [|done].
  intros [= ->].
  destruct (transform_record w key s') as [[] t'|] eqn:H2; [|done].
  intros [= ->].
  apply transform_record_ok in H1 as (content & body & Hs & Hb & Hd).
  apply transform_record_ok in H2 as (content' & body' & Hs' & Hb' & Hd').
  assert (content' = content) as -> by congruence.
  assert (body' = body) as -> by congruence.
  exists content, body. split; [done|]. split; [done|]. split; [done|].
  rewrite Hd', Hd. rewrite insert_insert_eq.
  by rewrite !lookup_insert_eq.
Qed.

Lemma transform_twice_same_content_witness :
  exists content body,
    source Fixtures.healthy !! "k1" = Some content
    /\ body_of Fixtures.healthy content = Some body
    /\ Some body = Some ("a.b" +:+ String LF "a.b").
Proof.
  destruct (transform_twice_same_content Fixtures.healthy "k1"
           (start {["k1" := "old"]})
           {| destination := <["k1" := "a.b" +:+ String LF "a.b"]> {["k1" := "old"]};
              gets_made := 1; puts_made := 1;
              metrics := [[("S3ObjectsProcessed", 1%Z); ("LinesProcessed", 2%Z)]] |}
           {| destination := <["k1" := "a.b" +:+ String LF "a.b"]> {["k1" := "old"]};
              gets_made := 2; puts_made := 2;
              metrics := [[("S3ObjectsProcessed", 1%Z); ("LinesProcessed", 2%Z)];
                          [("S3ObjectsProcessed", 1%Z); ("LinesProcessed", 2%Z)]] |})
    as (content & body & Hs & Hb & _ & _ & Hd & _).
  - vm_compute. reflexivity.
  - vm_compute. reflexivity.
  - exists content, body. split; [exact Hs|]. split; [exact Hb|].
    rewrite <- Hd. vm_compute. reflexivity.
Defined.

End TransformerClaims.

(** ** [handler_list_pages] *)
Section EnumeratorFacts.
Import Py Enumerator.
Variables (ctx : context) (q : sqs_queue).

Lemma bookmark_keeps_flag (ev : gmap string string) key :
  <["bookmark" := key]> ev !! "all_pages_listed" = ev !! "all_pages_listed".
Proof. by rewrite lookup_insert_ne. Qed.

Lemma paged_nil : Claims.paged [].
Proof. exists [], []. split_and!; [done|constructor|by left]. Qed.

Lemma paged_last (p : list string) : 1 <= length p < 1000 -> Claims.paged [p].
Proof.
  intros Hp. exists [], [p]. split_and!; [done|constructor|].
  right. by exists p.
Qed.

Lemma paged_cons (p : list string) pages :
  length p = 1000 -> Claims.paged pages -> Claims.paged (p :: pages).
Proof.
  intros Hp (full & last & -> & Hfull & Hlast).
  exists (p :: full), last. split_and!; [done|by constructor|done].
Qed.

Lemma paged_sizes pages :
  Claims.paged pages -> Forall (fun p => 1 <= length p <= 1000) pages.
Proof.
  intros (full & last & -> & Hfull & Hlast). apply Forall_app. split.
  - eapply List.Forall_impl; [|exact Hfull]. simpl. intros p Hp. lia.
  - destruct Hlast as [->|(p & -> & Hp)]; [constructor|].
    constructor; [lia|constructor].
Qed.

(** What the loop adds to the pages sent, from any point of the scan. *)
Lemma scan_sends objs :
  forall tick page (ev : gmap string string) sent0,
    length page < 1000 ->
    ev !! "all_pages_listed" = Some "FALSE" ->
    exists more,
      sent (scan ctx q objs tick page ev sent0) = sent0 ++ more
      /\ Claims.paged more
      /\ (Claims.yielded (scan ctx q objs tick page ev sent0) ->
          Forall (fun p => length p = 1000) more)
      /\ (forall k, In k (concat more ++ buffer (scan ctx q objs tick page ev sent0)) ->
                    In k (page ++ objs)).
Proof.
  induction objs as [|key rest IH]; intros tick page ev sent0 Hlen Hev.
  - cbn [scan]. unfold finish. destruct page as [|k0 page].
    + exists []. rewrite app_nil_r.
      split_and!; [done|apply paged_nil|constructor|done].
    + destruct (send_message_raises q (length sent0)).
      * exists []. rewrite app_nil_r.
        split_and!; [done|apply paged_nil|constructor|].
        cbn [buffer concat]. intros k Hk. by rewrite app_nil_r.
      * exists [k0 :: page]. split_and!.
        -- done.
        -- apply paged_last. simpl in *; lia.
        -- intros (ev' & [= <-] & Hflag).
           by rewrite lookup_insert_eq in Hflag.
        -- cbn [buffer concat]. intros k. rewrite !app_nil_r, in_app_iff. tauto.
  - cbn [scan].
    destruct (get_remaining_time_in_millis ctx tick <? 30000)%Z.
    { exists []. rewrite app_nil_r.
      split_and!; [done|apply paged_nil|constructor|].
      cbn [buffer concat app]. intros k Hk. apply in_app_iff. by left. }
    cbn zeta. destruct (Nat.eqb_spec (length (page ++ [key])) 1000) as [Hfull|Hnot].
    + destruct (send_message_raises q (length sent0)).
      { exists []. rewrite app_nil_r.
        split_and!; [done|apply paged_nil|constructor|].
        cbn [buffer concat app]. intros k. rewrite !in_app_iff. simpl. tauto. }
      destruct (IH (S tick) [] (<["bookmark" := key]> ev) (sent0 ++ [page ++ [key]]))
        as (more & Hs & Hall & Hy & Hk).
      { simpl. lia. }
      { by rewrite bookmark_keeps_flag. }
      exists ((page ++ [key]) :: more). split_and!.
      * rewrite Hs. by rewrite <- app_assoc.
      * by apply paged_cons.
      * intros Hyield. constructor; [done|by apply Hy].
      * intros k. cbn [concat]. rewrite <- app_assoc, in_app_iff.
        intros [Hin|Hin].
        -- rewrite !in_app_iff in *. simpl in *. tauto.
        -- apply Hk in Hin. simpl in Hin. rewrite !in_app_iff. simpl. tauto.
    + destruct (IH (S tick) (page ++ [key]) (<["bookmark" := key]> ev) sent0)
        as (more & Hs & Hall & Hy & Hk).
      { rewrite length_app in *. simpl in *. lia. }
      { by rewrite bookmark_keeps_flag. }
      exists more. split_and!; try done.
      intros k Hin. apply Hk in Hin. by rewrite <- app_assoc in Hin.
Qed.

(** A scan that is never short of time and whose sends never raise: every
    key is sent, in pages of 1000 keys and a last, shorter one. *)
Lemma scan_complete objs :
  (forall n, (get_remaining_time_in_millis ctx n <? 30000)%Z = false) ->
  (forall n, send_message_raises q n = false) ->
  forall tick page (ev : gmap string string) sent0,
    length page < 1000 ->
    exists ev' more,
      ended (scan ctx q objs tick page ev sent0) = Return ev'
      /\ ev' !! "all_pages_listed" = Some "TRUE"
      /\ sent (scan ctx q objs tick page ev sent0) = sent0 ++ more
      /\ concat more = page ++ objs
      /\ Claims.paged more.
Proof.
  intros Htime Hq.
  induction objs as [|key rest IH]; intros tick page ev sent0 Hlen.
  - cbn [scan]. unfold finish. destruct page as [|k0 page].
    + exists (<["all_pages_listed" := "TRUE"]> ev), [].
      rewrite app_nil_r, lookup_insert_eq. split_and!; try done.
      exists [], []. split_and!; [done|constructor|by left].
    + rewrite Hq.
      exists (<["all_pages_listed" := "TRUE"]> ev), [k0 :: page].
      rewrite lookup_insert_eq. split_and!; try done.
      exists [], [k0 :: page]. split_and!; [done|constructor|].
      right. exists (k0 :: page). split; [done|]. simpl in *. lia.
  - cbn [scan]. rewrite Htime. cbn zeta.
    destruct (Nat.eqb_spec (length (page ++ [key])) 1000) as [Hfull|Hnot].
    + rewrite Hq.
      destruct (IH (S tick) [] (<["bookmark" := key]> ev) (sent0 ++ [page ++ [key]]))
        as (ev' & more & He & Hflag & Hs & Hc & Hp).
      { simpl. lia. }
      exists ev', ((page ++ [key]) :: more). split_and!; try done.
      * rewrite Hs. by rewrite <- app_assoc.
      * cbn [concat]. rewrite Hc. by rewrite <- app_assoc.
      * destruct Hp as (full & last & -> & Hfl & Hl).
        exists ((page ++ [key]) :: full), last. split_and!; try done.
        by constructor.
    + destruct (IH (S tick) (page ++ [key]) (<["bookmark" := key]> ev) sent0)
        as (ev' & more & He & Hflag & Hs & Hc & Hp).
      { rewrite length_app in *. simpl in *. lia. }
      exists ev', more. split_and!; try done.
      rewrite Hc. by rewrite <- app_assoc.
Qed.

End EnumeratorFacts.

Section EnumeratorClaims.
Import Py Enumerator.

Lemma handler_list_pages_scan b q (ev : gmap string string) ctx :
  handler_list_pages b q ev ctx
  = scan ctx q (objects_filter b (marker_of (ev !! "bookmark"))) 0 []
      (<["all_pages_listed" := "FALSE"]> ev) [].
Proof. unfold handler_list_pages. cbn zeta. by rewrite lookup_insert_ne. Qed.

(** C10. The pages an invocation sends have 1000 keys each, except
    possibly a last one that is shorter and not empty; so every message
    holds between 1 and 1000 keys.  An invocation that yields sent full
    pages only: its buffer was not sent.  On an empty bucket nothing is
    sent. *)
Theorem sent_pages_full_or_final b q (ev : gmap string string) ctx :
  Claims.paged (sent (handler_list_pages b q ev ctx))
  /\ Forall (fun p => 1 <= length p <= 1000) (sent (handler_list_pages b q ev ctx))
  /\ (Claims.yielded (handler_list_pages b q ev ctx) ->
      Forall (fun p => length p = 1000) (sent (handler_list_pages b q ev ctx)))
  /\ (b = [] -> sent (handler_list_pages b q ev ctx) = []).
Proof.
  rewrite handler_list_pages_scan.
  destruct (scan_sends ctx q (objects_filter b (marker_of (ev !! "bookmark")))
              0 [] (<["all_pages_listed" := "FALSE"]> ev) [])
    as (more & Hs & Hp & Hy & _).
  { simpl. lia. }
  { by rewrite lookup_insert_eq. }
  cbn [app] in Hs. rewrite Hs. split_and!; try done.
  - by apply paged_sizes.
  - intros ->. rewrite <- Hs.
    by destruct (marker_of (ev !! "bookmark")).
Qed.

Lemma ltb_empty k : k <> "" -> String.ltb "" k = true.
Proof. by destruct k. Qed.

(** C6. An invocation resumed with bookmark [bm] puts in its pages only
    keys that come strictly after [bm] in the listing order (the keys of a
    bucket are not empty). *)
Theorem resume_after_bookmark b q (ev : gmap string string) ctx bm :
  ev !! "bookmark" = Some bm ->
  ~ In "" b ->
  forall k,
    In k (concat (sent (handler_list_pages b q ev ctx))
          ++ buffer (handler_list_pages b q ev ctx)) ->
    String.ltb bm k = true.
Proof.
  intros Hbm Hne k. rewrite handler_list_pages_scan, Hbm.
  destruct (scan_sends ctx q (objects_filter b (marker_of (Some bm)))
              0 [] (<["all_pages_listed" := "FALSE"]> ev) [])
    as (more & Hs & _ & _ & Hk).
  { simpl. lia. }
  { by rewrite lookup_insert_eq. }
  cbn [app] in Hs. rewrite Hs. intros Hin. apply Hk in Hin. cbn [app] in Hin.
  unfold marker_of, objects_filter in Hin. destruct (truthy bm) eqn:Ht.
  - by apply filter_In in Hin as [_ Hlt].
  - destruct bm; [|done]. apply ltb_empty. by intros ->.
Qed.

Lemma resume_after_bookmark_witness :
  In "k1" (concat (sent (handler_list_pages Fixtures.bucket3 Fixtures.reliable
                           {["bookmark" := "k0"]} Fixtures.ample))
           ++ buffer (handler_list_pages Fixtures.bucket3 Fixtures.reliable
                        {["bookmark" := "k0"]} Fixtures.ample))
  /\ String.ltb "k0" "k1" = true.
Proof.
  assert (Hin : In "k1"
                  (concat (sent (handler_list_pages Fixtures.bucket3 Fixtures.reliable
                                   {["bookmark" := "k0"]} Fixtures.ample))
                   ++ buffer (handler_list_pages Fixtures.bucket3 Fixtures.reliable
                                {["bookmark" := "k0"]} Fixtures.ample))).
  { vm_compute. by left. }
  split; [exact Hin|].
  apply (resume_after_bookmark Fixtures.bucket3 Fixtures.reliable
           {["bookmark" := "k0"]} Fixtures.ample "k0").
  - reflexivity.
  - vm_compute. intuition discriminate.
  - exact Hin.
Defined.

(** An invocation that is never short of time, on a queue that never
    raises, started without a bookmark: it reports that every page is
    listed, and the pages it sent are the bucket cut in pages of 1000 keys
    with a last shorter one. *)
Lemma full_scan_lists_every_key b q (ev : gmap string string) ctx :
  (forall n, (get_remaining_time_in_millis ctx n <? 30000)%Z = false) ->
  (forall n, send_message_raises q n = false) ->
  ev !! "bookmark" = None ->
  exists ev',
    ended (handler_list_pages b q ev ctx) = Return ev'
    /\ ev' !! "all_pages_listed" = Some "TRUE"
    /\ concat (sent (handler_list_pages b q ev ctx)) = b
    /\ Claims.paged (sent (handler_list_pages b q ev ctx)).
Proof.
  intros Htime Hq Hbm. rewrite handler_list_pages_scan, Hbm.
  destruct (scan_complete ctx q b Htime Hq 0 []
              (<["all_pages_listed" := "FALSE"]> ev) [])
    as (ev' & more & He & Hflag & Hs & Hc & Hp).
  { simpl. lia. }
  exists ev'. simpl in *. rewrite Hs. by split_and!.
Qed.

(** The scenario of 2500 keys, in one invocation with time to spare:
    three pages, of 1000, 1000 and 500 keys. *)
Example one_invocation_2500_keys :
  map length (sent (handler_list_pages Fixtures.bucket2500 Fixtures.reliable
                      ∅ Fixtures.ample))
  = [1000; 1000; 500].
Proof. vm_compute. reflexivity. Qed.

(** The same scenario when the first invocation runs short of time at its
    1201st reading: it has sent one page and holds 200 keys in its buffer;
    the run ends after pages of 1000, 1000 and 300 keys. *)
Example two_invocations_2500_keys :
  let '(st, pages) :=
    orchestrate Fixtures.bucket2500
      [(Fixtures.runs_out_after 1200, Fixtures.reliable);
       (Fixtures.ample, Fixtures.reliable)] ∅ in
  (match st with AllListed _ => true | _ => false end, map length pages)
  = (true, [1000; 1000; 300]).
Proof. vm_compute. reflexivity. Qed.

(** C1, where the code departs from it.  On a bucket of three keys, a first
    invocation that runs short of time at its third reading returns with
    the bookmark on ["k1"], having sent nothing: ["k0"] and ["k1"] were in
    its buffer only.  The second invocation lists from after ["k1"], so
    the whole run ends with [all_pages_listed = "TRUE"] after sending the
    single page [["k2"]]: two of the three keys are in no page. *)
Theorem yield_drops_buffered_keys :
  handler_list_pages Fixtures.bucket3 Fixtures.reliable ∅ (Fixtures.runs_out_after 2)
  = {| ended := Return {["bookmark" := "k1"; "all_pages_listed" := "FALSE"]};
       sent := [];
       buffer := ["k0"; "k1"] |}
  /\ orchestrate Fixtures.bucket3
       [(Fixtures.runs_out_after 2, Fixtures.reliable);
        (Fixtures.ample, Fixtures.reliable)] ∅
     = (AllListed {["bookmark" := "k2"; "all_pages_listed" := "TRUE"]},
        [["k2"]]).
Proof. split; vm_compute; reflexivity. Qed.

End EnumeratorClaims.

(** * Further properties of the code *)

(** ** [chunks], for any chunk size *)
Section ChunksMore.
Context {A : Type}.
Implicit Types (l : list A) (n i j : nat).

Lemma range_len_step len n :
  n <> 0 -> len <> 0 ->
  Py.range_len 0 len n = S (Py.range_len 0 (len - n) n).
Proof.
  intros Hn Hlen. unfold Py.range_len. rewrite !Nat.sub_0_r.
  destruct (Nat.le_gt_cases n len) as [Hle|Hgt].
  - replace (len + (n - 1)) with ((len - n + (n - 1)) + 1 * n) by lia.
    rewrite Nat.div_add by done. lia.
  - replace (len - n) with 0 by lia. rewrite Nat.add_0_l.
    rewrite (Nat.div_small (n - 1) n) by lia.
    replace (len + (n - 1)) with ((len - 1) + 1 * n) by lia.
    rewrite Nat.div_add by done. rewrite Nat.div_small by lia. done.
Qed.

Lemma slices_shift l n c i :
  map (fun k => Py.slice l k (k + n)) (Py.range_from c (i + n) n)
  = map (fun k => Py.slice (skipn n l) k (k + n)) (Py.range_from c i n).
Proof.
  revert i; induction c as [|c IH]; intros i; simpl; [done|].
  rewrite IH. f_equal. unfold Py.slice.
  rewrite skipn_skipn. by replace (i + n + n - (i + n)) with (i + n - i) by lia.
Qed.

(** The first chunk is the first [n] elements; the others are the chunks
    of what follows. *)
Lemma chunks_unfold l n :
  n <> 0 -> l <> [] ->
  chunks l n
  = match chunks (skipn n l) n with
    | Some cs => Some (firstn n l :: cs)
    | None => None
    end.
Proof.
  intros Hn Hl. rewrite !chunks_some by done.
  assert (Hlen : length l <> 0) by (destruct l; [congruence|simpl; lia]).
  rewrite range_len_step by done.
  rewrite length_skipn. cbn [Py.range_from map]. f_equal. f_equal.
  - unfold Py.slice. rewrite skipn_O. f_equal. lia.
  - apply (slices_shift l n _ 0).
Qed.

Lemma chunks_nil n : n <> 0 -> chunks (@nil A) n = Some [].
Proof.
  intros Hn. rewrite chunks_some by done. unfold Py.range_len.
  cbn [length]. rewrite Nat.sub_0_r, Nat.add_0_l, Nat.div_small by lia. done.
Qed.

(** X1. For every chunk size [n > 0], [chunks(l, n)] yields
    ceil(len(l)/n) slices whose concatenation is [l]; every slice but the
    last has exactly [n] elements and the last has what is left, between 1
    and [n]. *)
Theorem chunks_partition l n :
  n <> 0 ->
  exists cs,
    chunks l n = Some cs
    /\ concat cs = l
    /\ length l <= n * length cs < length l + n
    /\ (forall j c, nth_error cs j = Some c ->
          (S j < length cs -> length c = n)
          /\ (S j = length cs -> length c = length l - j * n
                                 /\ 1 <= length c <= n)).
Proof.
  intros Hn. pose proof (chunks_some l n Hn) as Hc.
  set (cs := map _ _) in Hc. exists cs.
  pose proof (chunks_length _ _ _ Hc) as Hlen.
  pose proof (Nat.div_mod_eq (length l + (n - 1)) n) as E.
  pose proof (Nat.mod_upper_bound (length l + (n - 1)) n Hn) as B.
  split_and!; [done|by apply (chunks_concat _ _ _ Hc)|nia|nia|].
  intros j c Hj.
  assert (Hlt : j < length cs) by (apply nth_error_Some; congruence).
  rewrite (chunks_nth _ _ _ _ Hc Hlt) in Hj. injection Hj as <-.
  unfold Py.slice. rewrite length_firstn, length_skipn.
  split; intros Hpos; nia.
Qed.

(** X2. Chunking goes through concatenation when the first list is a
    whole number of chunks: the chunks of [l1 ++ l2] are those of [l1]
    followed by those of [l2]. *)
Theorem chunks_app l1 l2 n m :
  n <> 0 ->
  length l1 = m * n ->
  exists cs1 cs2,
    chunks l1 n = Some cs1
    /\ chunks l2 n = Some cs2
    /\ chunks (l1 ++ l2) n = Some (cs1 ++ cs2).
Proof.
  intros Hn. revert l1. induction m as [|m IH]; intros l1 Hlen.
  - destruct l1; [|done]. rewrite chunks_nil by done.
    exists [], (map (fun k => Py.slice l2 k (k + n))
                  (Py.range_from (Py.range_len 0 (length l2) n) 0 n)).
    cbn [app]. rewrite (chunks_some l2 n Hn). by split_and!.
  - destruct (IH (skipn n l1)) as (cs1 & cs2 & H1 & H2 & H12).
    { rewrite length_skipn. simpl in Hlen. lia. }
    assert (Hne : l1 <> []) by (intros ->; simpl in Hlen; lia).
    assert (Hne' : l1 ++ l2 <> []) by (by destruct l1).
    exists (firstn n l1 :: cs1), cs2.
    rewrite (chunks_unfold l1 n Hn Hne), H1.
    rewrite (chunks_unfold (l1 ++ l2) n Hn Hne').
    rewrite skipn_app, firstn_app.
    replace (n - length l1) with 0 by (simpl in Hlen; lia).
    rewrite skipn_O, firstn_O, app_nil_r, H12. done.
Qed.

End ChunksMore.

Lemma chunks_partition_witness :
  exists cs,
    chunks [1; 2; 3; 4; 5; 6; 7] 3 = Some cs
    /\ concat cs = [1; 2; 3; 4; 5; 6; 7]
    /\ length [1; 2; 3; 4; 5; 6; 7] <= 3 * length cs
       < length [1; 2; 3; 4; 5; 6; 7] + 3
    /\ (forall j c, nth_error cs j = Some c ->
          (S j < length cs -> length c = 3)
          /\ (S j = length cs ->
              length c = length [1; 2; 3; 4; 5; 6; 7] - j * 3
              /\ 1 <= length c <= 3)).
Proof. apply (chunks_partition [1; 2; 3; 4; 5; 6; 7] 3). lia. Defined.

Lemma chunks_app_witness :
  exists cs1 cs2,
    chunks [1; 2; 3; 4] 2 = Some cs1
    /\ chunks [5; 6; 7] 2 = Some cs2
    /\ chunks ([1; 2; 3; 4] ++ [5; 6; 7]) 2 = Some (cs1 ++ cs2).
Proof. apply (chunks_app [1; 2; 3; 4] [5; 6; 7] 2 2); [lia|reflexivity]. Defined.

(** ** [dict(items)] and [flatten], on every input *)
Section DictFacts.
Import Py.

Lemma dict_of_items_update items : dict_of_items items = dict_update [] items.
Proof. reflexivity. Qed.

Lemma dict_update_app d xs ys :
  dict_update d (xs ++ ys) = dict_update (dict_update d xs) ys.
Proof. apply fold_left_app. Qed.

Lemma dict_set_keys_in d k v :
  In k (map fst d) -> map fst (dict_set d k v) = map fst d.
Proof.
  induction d as [|[k' v'] d IH]; simpl; [done|].
  destruct (String.eqb_spec k' k) as [->|Hne]; [done|].
  intros [Heq|Hin]; [done|]. simpl. by rewrite IH.
Qed.

Lemma dict_set_keys d k v k0 :
  In k0 (map fst d) -> In k0 (map fst (dict_set d k v)).
Proof.
  intros Hin. destruct (in_dec String.string_dec k (map fst d)) as [Hk|Hk].
  - by rewrite dict_set_keys_in.
  - rewrite dict_set_fresh, map_app, in_app_iff by done. by left.
Qed.

Lemma dict_set_wf d k v : wf_dict d -> wf_dict (dict_set d k v).
Proof.
  unfold wf_dict. intros Hd.
  destruct (in_dec String.string_dec k (map fst d)) as [Hk|Hk].
  - by rewrite dict_set_keys_in.
  - rewrite dict_set_fresh, map_app by done. simpl.
    apply List.NoDup_app; [done|repeat constructor; simpl; tauto|].
    intros x Hx [<-|[]]. done.
Qed.

Lemma dict_update_wf items d : wf_dict d -> wf_dict (dict_update d items).
Proof.
  revert d; induction items as [|[k v] items IH]; intros d Hd; simpl; [done|].
  apply IH. by apply dict_set_wf.
Qed.

Lemma dict_set_twice d k v0 v :
  dict_set (dict_set d k v0) k v = dict_set d k v.
Proof.
  induction d as [|[k' v'] d IH]; simpl.
  - by rewrite String.eqb_refl.
  - destruct (String.eqb_spec k' k) as [->|Hne]; simpl.
    + by rewrite String.eqb_refl.
    + destruct (String.eqb_spec k' k); [done|]. by rewrite IH.
Qed.

(** Assignments to two different keys commute when the first key is
    already there. *)
Lemma dict_set_comm d k v k' v' :
  k <> k' -> In k (map fst d) ->
  dict_set (dict_set d k' v') k v = dict_set (dict_set d k v) k' v'.
Proof.
  intros Hne. induction d as [|[a va] d IH]; simpl; [done|].
  intros Hin.
  destruct (String.eqb a k') eqn:E1; destruct (String.eqb a k) eqn:E2;
    simpl; rewrite ?E1, ?E2; try done.
  - apply String.eqb_eq in E1, E2. congruence.
  - rewrite IH; [done|]. destruct Hin as [Hin|Hin]; [|done].
    apply String.eqb_neq in E2. congruence.
Qed.

Lemma dict_update_set_in r X k v :
  ~ In k (map fst r) -> In k (map fst X) ->
  dict_set (dict_update X r) k v = dict_update (dict_set X k v) r.
Proof.
  revert X; induction r as [|[b vb] r IH]; intros X Hr HX; simpl; [done|].
  simpl in Hr. rewrite IH by (tauto || by apply dict_set_keys).
  rewrite dict_set_comm by (done || intros ->; tauto). done.
Qed.

Lemma dict_update_set D acc k v :
  wf_dict D ->
  dict_update acc (dict_set D k v) = dict_set (dict_update acc D) k v.
Proof.
  unfold wf_dict. revert acc; induction D as [|[a va] D IH]; intros acc Hwf; simpl.
  - done.
  - inversion Hwf as [|? ? Ha HD]; subst.
    destruct (String.eqb_spec a k) as [->|Hne]; simpl.
    + rewrite dict_update_set_in.
      * by rewrite dict_set_twice.
      * done.
      * destruct (in_dec String.string_dec k (map fst acc)) as [Hk|Hk].
        -- by rewrite dict_set_keys_in.
        -- rewrite dict_set_fresh, map_app, in_app_iff by done. right. by left.
    + by rewrite IH.
Qed.

(** Updating with the items of [dict(ys)] is updating with [ys]. *)
Lemma dict_update_dict acc ys :
  dict_update acc (dict_of_items ys) = dict_update acc ys.
Proof.
  induction ys as [|[k v] ys IH] using rev_ind; [done|].
  rewrite dict_of_items_update, !dict_update_app. simpl.
  rewrite dict_update_set.
  - by rewrite <- dict_of_items_update, IH.
  - apply dict_update_wf. constructor.
Qed.

Lemma dict_update_flat_map {X} (R : X -> list (string * value)) (d : list X) acc :
  dict_update acc (flat_map (fun x => dict_of_items (R x)) d)
  = dict_update acc (flat_map R d).
Proof.
  revert acc; induction d as [|x d IH]; intros acc; simpl; [done|].
  by rewrite !dict_update_app, dict_update_dict, IH.
Qed.

Lemma dict_get_set d k v k0 :
  dict_get (dict_set d k v) k0
  = if String.eqb k k0 then Some v else dict_get d k0.
Proof.
  induction d as [|[a va] d IH]; simpl.
  - done.
  - destruct (String.eqb_spec a k) as [->|Hak]; simpl.
    + by destruct (String.eqb_spec k k0).
    + rewrite IH. destruct (String.eqb_spec a k0) as [->|]; [|done].
      by destruct (String.eqb_spec k k0).
Qed.

Lemma dict_get_update items d k :
  dict_get (dict_update d items) k
  = match last_value k items with
    | Some v => Some v
    | None => dict_get d k
    end.
Proof.
  revert d; induction items as [|[a va] items IH]; intros d; simpl; [done|].
  rewrite IH. destruct (last_value k items); [done|].
  rewrite dict_get_set. by destruct (String.eqb a k).
Qed.

Lemma last_value_some k items v :
  last_value k items = Some v -> In (k, v) items.
Proof.
  induction items as [|[a va] items IH]; simpl; [done|].
  destruct (last_value k items) as [x|].
  - intros [= ->]. right. by apply IH.
  - destruct (String.eqb_spec a k) as [->|]; [|done]. intros [= ->]. by left.
Qed.

Lemma last_value_in k items v :
  In (k, v) items -> is_Some (last_value k items).
Proof.
  induction items as [|[a va] items IH]; simpl; [done|].
  intros [[= -> ->]|Hin].
  - destruct (last_value k items); [done|]. by rewrite String.eqb_refl.
  - destruct (IH Hin) as [x ->]. done.
Qed.

End DictFacts.

Section FlattenMore.
Import Py Flatten.

(** The items of an entry are the dict of its leaves under the keys that
    [new_key] builds along their paths. *)
Lemma flatten_entry_items sep v :
  forall nk,
    flatten_entry sep nk v
    = dict_of_items
        (map (fun pv => (compound_key nk sep (fst pv), snd pv)) (leaves_val v)).
Proof.
  induction v as [v Hv|d IH] using value_dict_ind; intros nk.
  - by rewrite flatten_entry_leaf, leaves_val_leaf.
  - rewrite flatten_entry_dict. unfold flatten. rewrite leaves_val_dict.
    assert (E1 : flat_map (fun kv => flatten_entry sep (new_key nk sep (fst kv)) (snd kv)) d
                 = flat_map (fun kv => dict_of_items
                               (map (fun pv => (compound_key (new_key nk sep (fst kv)) sep (fst pv),
                                                snd pv))
                                  (leaves_val (snd kv)))) d).
    { induction IH as [|[k v] d Hh Ht IHd]; cbn [flat_map fst snd]; [done|].
      by rewrite Hh, IHd. }
    rewrite E1, !dict_of_items_update, dict_update_flat_map. f_equal.
    clear. induction d as [|[k v] d IHd]; cbn [flat_map fst snd]; [done|].
    by rewrite map_app, map_map, IHd.
Qed.

Lemma flatten_items d pk sep :
  flatten d pk sep
  = dict_of_items
      (map (fun pv => (compound_key pk sep (fst pv), snd pv)) (leaves d)).
Proof. rewrite <- flatten_entry_dict. apply flatten_entry_items. Qed.

Lemma flatten_wf d pk sep : wf_dict (flatten d pk sep).
Proof. unfold flatten. rewrite dict_of_items_update. apply dict_update_wf. constructor. Qed.

(** On a dict without mapping values [flatten] changes nothing, whatever
    the separator. *)
Lemma flatten_flat_id m sep :
  wf_dict m ->
  Forall (fun kv => is_mapping (snd kv) = false) m ->
  flatten m "" sep = m.
Proof.
  intros Hwf Hflat. unfold flatten.
  assert (F : flat_map (fun kv => flatten_entry sep (new_key "" sep (fst kv)) (snd kv)) m = m).
  { clear Hwf. induction Hflat as [|[k v] m Hv Ht IH]; cbn [flat_map fst snd]; [done|].
    change (new_key "" sep k) with k.
    rewrite flatten_entry_leaf by done. by rewrite IH. }
  rewrite F. by apply dict_of_items_nodup.
Qed.

(** X3. For every dict, parent key and separator, [flatten] returns the
    dict built from the leaves of its argument taken in iteration order,
    each under the key that [new_key] builds along its path. *)
Theorem flatten_dict_of_leaves (d : pydict) (parent_key sep : string) :
  flatten d parent_key sep
  = dict_of_items
      (map (fun pv => (compound_key parent_key sep (fst pv), snd pv)) (leaves d)).
Proof. apply flatten_items. Qed.

(** X4. Whatever its input, [flatten] returns a flat dict: no key occurs
    twice in it and none of its values is a mapping. *)
Theorem flatten_result_is_flat_dict (d : pydict) (parent_key sep : string) :
  wf_dict (flatten d parent_key sep)
  /\ Forall (fun kv => is_mapping (snd kv) = false) (flatten d parent_key sep).
Proof. split; [apply flatten_wf|apply flatten_one_level]. Qed.

(** X5. [flatten] is idempotent on every input: flattening a result again,
    with any separator, gives it back. *)
Theorem flatten_idempotent (d : pydict) (parent_key sep sep' : string) :
  flatten (flatten d parent_key sep) "" sep' = flatten d parent_key sep.
Proof. apply flatten_flat_id; [apply flatten_wf|apply flatten_one_level]. Qed.

(** X6. When several leaves get the same compound key the last one in
    iteration order wins: looking a key up in [flatten(d)] gives the value
    of the last leaf with that key.  A key is in the result exactly when
    it is the compound key of a leaf, so a dict without leaves (only empty
    nested mappings) flattens to the empty dict. *)
Theorem flatten_last_leaf_wins (d : pydict) (parent_key sep k : string) :
  dict_get (flatten d parent_key sep) k
  = last_value k
      (map (fun pv => (compound_key parent_key sep (fst pv), snd pv)) (leaves d))
  /\ (is_Some (dict_get (flatten d parent_key sep) k)
      <-> exists p v, In (p, v) (leaves d) /\ compound_key parent_key sep p = k)
  /\ (leaves d = [] -> flatten d parent_key sep = []).
Proof.
  rewrite flatten_items, dict_of_items_update, dict_get_update.
  set (items := map _ (leaves d)).
  assert (E : match last_value k items with Some v => Some v | None => dict_get [] k end
              = last_value k items) by (by destruct (last_value k items)).
  rewrite E. split_and!; [done| |].
  - split.
    + intros [v Hv]. apply last_value_some in Hv.
      apply in_map_iff in Hv as ([p x] & [= <- <-] & Hin). by exists p, x.
    + intros (p & v & Hin & <-). apply (last_value_in _ _ v).
      apply in_map_iff. by exists (p, v).
  - intros Hl. subst items. by rewrite Hl.
Qed.

Lemma join_sep_merge sep a b p :
  join sep ((a +:+ sep +:+ b) :: p) = join sep (a :: b :: p).
Proof.
  destruct p as [|c r]; [done|].
  change (join sep ((a +:+ sep +:+ b) :: c :: r))
    with ((a +:+ sep +:+ b) +:+ sep +:+ join sep (c :: r)).
  change (join sep (a :: b :: c :: r))
    with (a +:+ sep +:+ b +:+ sep +:+ join sep (c :: r)).
  by rewrite !string_append_assoc.
Qed.

Lemma compound_key_truthy sep p :
  forall pk, truthy pk = true -> compound_key pk sep p = join sep (pk :: p).
Proof.
  induction p as [|k p IH]; intros pk Hpk; [done|].
  change (compound_key pk sep (k :: p)) with (compound_key (new_key pk sep k) sep p).
  rewrite new_key_truthy by done.
  rewrite IH by (by apply truthy_append). apply join_sep_merge.
Qed.

(** X7. Below a non-empty parent key the compound key of a path is the
    parent key and the path joined by the separator, and at the top level
    it is the joined path when the first key is not empty; but empty keys
    at the head of a path are dropped, separator included. *)
Theorem compound_key_joins_path (sep k : string) (p : list string) :
  truthy k = true ->
  compound_key k sep p = join sep (k :: p)
  /\ compound_key "" sep (k :: p) = join sep (k :: p)
  /\ compound_key "" sep ("" :: k :: p) = join sep (k :: p).
Proof.
  intros Hk. split_and!.
  - by apply compound_key_truthy.
  - change (compound_key "" sep (k :: p)) with (compound_key k sep p).
    by apply compound_key_truthy.
  - change (compound_key "" sep ("" :: k :: p)) with (compound_key k sep p).
    by apply compound_key_truthy.
Qed.

End FlattenMore.

Lemma compound_key_joins_path_witness :
  Flatten.compound_key "a" "." ["b"; ""; "c"] = Py.join "." ["a"; "b"; ""; "c"]
  /\ Flatten.compound_key "" "." ["a"; "b"; ""; "c"] = Py.join "." ["a"; "b"; ""; "c"]
  /\ Flatten.compound_key "" "." [""; "a"; "b"; ""; "c"]
     = Py.join "." ["a"; "b"; ""; "c"].
Proof. apply (compound_key_joins_path "." "a" ["b"; ""; "c"]). reflexivity. Defined.

(** ** Invariants of loops in the exception monad *)
Section ExcInvariants.
Import Exc.
Local Open Scope exc_scope.
Context {S A : Type}.

(** A property of the state that every iteration keeps, whether it
    finishes or raises, holds when the loop stops. *)
Lemma for_each_final_inv (P : S -> Prop) (Q : A -> Prop)
  (body : A -> M S unit) (xs : list A) :
  (forall x s, Q x -> P s -> P (final (body x s))) ->
  Forall Q xs -> forall s, P s -> P (final (for_each xs body s)).
Proof.
  intros Hbody HQ. induction HQ as [|x xs Hx Hxs IH]; intros s Hs; simpl; [done|].
  unfold bind. pose proof (Hbody x s Hx Hs) as Hstep.
  destruct (body x s) as [[] s'|e s']; simpl in *; [by apply IH|done].
Qed.

Lemma for_each_ok_app (body : A -> M S unit) xs ys s s' :
  for_each (xs ++ ys) body s = Ok tt s' ->
  exists s1, for_each xs body s = Ok tt s1 /\ for_each ys body s1 = Ok tt s'.
Proof.
  rewrite for_each_app. unfold bind.
  destruct (for_each xs body s) as [[] s1|e s1]; [|done].
  intros H. by exists s1.
Qed.

End ExcInvariants.

(** ** [handler_split_page], on every run *)
Section SplitterMore.
Import Py Exc Splitter.
Local Open Scope exc_scope.
Variable w : world.

Lemma entries_from_app n xs ys :
  entries_from w n (xs ++ ys)
  = entries_from w n xs ++ entries_from w (n + length xs) ys.
Proof.
  revert n; induction xs as [|x xs IH]; intros n; simpl.
  - by rewrite Nat.add_0_r.
  - rewrite IH. do 3 f_equal. lia.
Qed.

Lemma entries_from_length n xs : length (entries_from w n xs) = length xs.
Proof. revert n; induction xs as [|x xs IH]; intros n; simpl; [done|]. by rewrite IH. Qed.

Lemma entries_from_ids n xs :
  map Id (entries_from w n xs) = map (uuid4 w) (seq n (length xs)).
Proof. revert n; induction xs as [|x xs IH]; intros n; simpl; [done|]. by rewrite IH. Qed.

Lemma send_batch_final batch s :
  final (send_batch w batch s)
  = {| calls := calls s ++ [entries_from w (drawn s) batch];
       drawn := drawn s + length batch |}.
Proof.
  rewrite send_batch_run. cbn zeta.
  by destruct (send_messages_result _ _ _).
Qed.

Lemma split_record_final_inv (P : state -> Prop) body s :
  (forall batch s, 1 <= length batch <= 10 -> P s -> P (final (send_batch w batch s))) ->
  P s -> P (final (split_record w body s)).
Proof.
  intros Hstep Hs. unfold split_record, bind, or_raise.
  destruct (json_loads w body) as [page|]; [|done]. cbn [ret].
  destruct (chunks page 10) as [cs|] eqn:Hc; [|done]. cbn [ret].
  apply (for_each_final_inv P (fun b => 1 <= length b <= 10)); [done| |done].
  apply (chunks_sizes _ _ _ Hc).
Qed.

Lemma handler_split_page_final_inv (P : state -> Prop) records s :
  (forall batch s, 1 <= length batch <= 10 -> P s -> P (final (send_batch w batch s))) ->
  P s -> P (final (handler_split_page w records s)).
Proof.
  intros Hstep Hs. unfold handler_split_page.
  apply (for_each_final_inv P (fun _ => True)); [|by apply Forall_forall|done].
  intros body s' _ Hs'. by apply split_record_final_inv.
Qed.

Lemma send_batch_numbered batch s :
  numbered w s -> numbered w (final (send_batch w batch s)).
Proof.
  intros [Hc Hd]. rewrite send_batch_final. unfold numbered, keys_sent in *.
  cbn [calls drawn]. rewrite map_app, !concat_app. cbn [map concat].
  rewrite !app_nil_r, entries_from_bodies, entries_from_app, <- Hc.
  rewrite length_app, entries_from_length. split; [|lia].
  do 2 f_equal. rewrite Hd. simpl.
  rewrite Hc at 1. by rewrite entries_from_length.
Qed.

Lemma send_batch_sized batch s :
  1 <= length batch <= 10 -> sized s -> sized (final (send_batch w batch s)).
Proof.
  intros Hb Hs. rewrite send_batch_final. unfold sized in *. cbn [calls].
  apply Forall_app. split; [done|]. constructor; [|constructor].
  by rewrite entries_from_length.
Qed.

End SplitterMore.

Lemma unary_inj i j : Fixtures.unary i = Fixtures.unary j -> i = j.
Proof.
  revert j; induction i as [|i IH]; intros [|j]; simpl; try done.
  intros [= H]. f_equal. by apply IH.
Qed.

Section SplitterExtras.
Import Py Exc Splitter.

Lemma initial_numbered w : numbered w initial.
Proof. by split. Qed.

(** X8. In every run, finished or not, the entries sent carry the
    identifiers in the order they were drawn, one draw per entry; so when
    the generator never repeats, no two entries of an invocation share an
    [Id]. *)
Theorem entry_ids_are_fresh_draws (w : world) (records : list string) :
  (forall i j, uuid4 w i = uuid4 w j -> i = j) ->
  let s := final (handler_split_page w records initial) in
  map Id (concat (calls s)) = map (uuid4 w) (seq 0 (drawn s))
  /\ drawn s = length (concat (keys_sent s))
  /\ List.NoDup (map Id (concat (calls s))).
Proof.
  intros Hinj s.
  assert (Hnum : numbered w s).
  { apply handler_split_page_final_inv; [|apply initial_numbered].
    intros batch s' _. apply send_batch_numbered. }
  destruct Hnum as [Hc Hd].
  assert (Hids : map Id (concat (calls s)) = map (uuid4 w) (seq 0 (drawn s))).
  { rewrite Hd. rewrite Hc at 1. rewrite entries_from_ids.
    by rewrite Hc, entries_from_length. }
  split_and!; [done| |].
  - rewrite Hd. rewrite Hc. by rewrite entries_from_length.
  - rewrite Hids. apply Finite.Injective_map_NoDup; [exact Hinj|apply seq_NoDup].
Qed.

Lemma entry_ids_are_fresh_draws_witness :
  let s := final (handler_split_page Fixtures.two_pages ["p1"; "p2"] initial) in
  map Id (concat (calls s)) = map Fixtures.unary (seq 0 (drawn s))
  /\ drawn s = length (concat (keys_sent s))
  /\ List.NoDup (map Id (concat (calls s))).
Proof.
  apply (entry_ids_are_fresh_draws Fixtures.two_pages ["p1"; "p2"]).
  exact unary_inj.
Defined.

(** X9. Whatever the pages, the queue and the point where a run stops,
    every [send_messages] call that was made has between 1 and 10
    entries: never an empty batch, never more than the queue accepts. *)
Theorem calls_have_one_to_ten_entries (w : world) (records : list string) :
  sized (final (handler_split_page w records initial)).
Proof.
  apply handler_split_page_final_inv; [|constructor].
  intros batch s. apply send_batch_sized.
Qed.

(** X10. A record whose body does not decode makes the handler raise
    [JSONDecodeError] when it is reached: the pages before it were sent,
    nothing is sent and no identifier is drawn for it or for the records
    after it. *)
Theorem undecodable_record_stops (w : world) (pre post : list string)
  (body : string) (s1 : state) :
  handler_split_page w pre initial = Ok tt s1 ->
  json_loads w body = None ->
  handler_split_page w (pre ++ body :: post) initial = Raise JSONDecodeError s1.
Proof.
  intros Hpre Hbody. unfold handler_split_page in *.
  eapply for_each_raise_at; [exact Hpre|].
  unfold split_record, bind, or_raise. by rewrite Hbody.
Qed.

Lemma undecodable_record_stops_witness :
  exists s1,
    keys_sent s1 = [Fixtures.page7]
    /\ handler_split_page Fixtures.two_pages (["p2"] ++ "p3" :: ["p1"]) initial
       = Raise JSONDecodeError s1.
Proof.
  eexists. split; [|apply undecodable_record_stops; reflexivity].
  reflexivity.
Defined.

Lemma batches_of_concat w records :
  concat (batches_of w records)
  = flat_map (fun body => default [] (json_loads w body)) records.
Proof.
  unfold batches_of. induction records as [|body records IH]; [done|].
  cbn [flat_map]. rewrite concat_app, IH. f_equal.
  destruct (json_loads w body) as [page|]; [|done].
  pose proof (chunks_some page 10 ltac:(done)) as Hc. rewrite Hc.
  apply (chunks_concat page 10). exact Hc.
Qed.

(** X11. For an event of several pages that all decode, on a queue whose
    bulk sends return: the handler finishes, and the keys of its calls, put
    end to end, are the keys of the pages in the order of the event, each
    key once. *)
Theorem split_event_sends_every_key (w : world) (records : list string) :
  Forall (fun body => is_Some (json_loads w body)) records ->
  (forall n, returns_at w n) ->
  exists s,
    handler_split_page w records initial = Ok tt s
    /\ concat (keys_sent s)
       = flat_map (fun body => default [] (json_loads w body)) records.
Proof.
  intros Hdec Hret.
  destruct (batches_all_sent w (batches_of w records) initial) as (s & Hrun & Hk).
  { intros m _. apply Hret. }
  exists s. rewrite handler_split_page_batches by done. split; [done|].
  rewrite Hk. apply batches_of_concat.
Qed.

Lemma split_event_sends_every_key_witness :
  exists s,
    handler_split_page Fixtures.two_pages ["p1"; "p2"] initial = Ok tt s
    /\ concat (keys_sent s)
       = flat_map (fun body => default [] (json_loads Fixtures.two_pages body))
           ["p1"; "p2"].
Proof.
  apply (split_event_sends_every_key Fixtures.two_pages ["p1"; "p2"]).
  - repeat constructor; by eexists.
  - intros n es. simpl. discriminate.
Defined.

End SplitterExtras.

(** ** [handler_transform], on whole batches *)
Section TransformerMore.
Import Py Exc Transformer.
Variable w : world.

Lemma items_of_length lines items :
  items_of w lines = Some items -> length items = length lines.
Proof.
  revert items; induction lines as [|line lines IH]; intros items; simpl.
  - by intros [= <-].
  - destruct (line_item w line); [|done].
    destruct (items_of w lines) as [items'|]; [|done].
    intros [= <-]. simpl. by rewrite (IH items').
Qed.

(** The state in which a record that is processed to its end leaves the
    invocation. *)
Lemma transform_record_ok_state key s s' :
  transform_record w key s = Ok tt s' ->
  exists content items,
    source w !! key = Some content
    /\ items_of w (splitlines content) = Some items
    /\ s' = {| destination := <[key := join (String LF "") items]> (destination s);
               gets_made := S (gets_made s);
               puts_made := S (puts_made s);
               metrics := metrics s ++ [metric_of (length items)] |}.
Proof.
  unfold transform_record, bind, get_body.
  destruct (get_raises w (gets_made s)); [done|].
  destruct (source w !! key) as [content|] eqn:Hs; [|done].
  destruct (items_of w (splitlines content)) as [items|] eqn:Hi.
  - rewrite (comprehension_items _ _ _ _ Hi). unfold put. simpl.
    destruct (put_raises w (puts_made s)); [done|].
    unfold put_metric_data. simpl.
    destruct (put_metric_data_raises w (length (metrics s))); [done|].
    intros [= <-]. by exists content, items.
  - destruct (comprehension_fails _ _ (after_get s) Hi) as [e He].
    unfold after_get in He. by rewrite He.
Qed.

Lemma written_items key content items :
  source w !! key = Some content ->
  items_of w (splitlines content) = Some items ->
  written w key = Some (join (String LF "") items)
  /\ lines_of w key = length items.
Proof.
  intros Hs Hi. unfold written, lines_of, body_of. rewrite Hs, Hi.
  split; [done|]. simpl. by rewrite (items_of_length _ _ Hi).
Qed.

(** What a batch that is processed to its end has done. *)
Lemma handler_transform_ok records :
  forall s s',
    handler_transform w records s = Ok tt s' ->
    (forall k, In k records ->
               is_Some (written w k) /\ destination s' !! k = written w k)
    /\ (forall k, ~ In k records -> destination s' !! k = destination s !! k)
    /\ gets_made s' = gets_made s + length records
    /\ puts_made s' = puts_made s + length records
    /\ metrics s' = metrics s ++ map (fun key => metric_of (lines_of w key)) records.
Proof.
  unfold handler_transform.
  induction records as [|key rest IH]; intros s s'; simpl.
  - intros [= <-]. rewrite app_nil_r. split_and!; try done; lia.
  - unfold bind. destruct (transform_record w key s) as [[] s1|] eqn:Hrec; [|done].
    intros Hrest. apply IH in Hrest as (Hin & Hout & Hg & Hp & Hm).
    apply transform_record_ok_state in Hrec as (content & items & Hs & Hi & ->).
    destruct (written_items key content items Hs Hi) as [Hw Hl].
    cbn [destination gets_made puts_made metrics] in *.
    split_and!.
    + intros k [<-|Hk]; [|by apply Hin].
      destruct (in_dec String.string_dec key rest) as [Hr|Hr]; [by apply Hin|].
      rewrite (Hout key Hr), lookup_insert_eq, Hw. by split.
    + intros k Hk. rewrite Hout by tauto.
      rewrite lookup_insert_ne; [done|]. intros ->. tauto.
    + lia.
    + lia.
    + rewrite Hm, <- app_assoc. by rewrite Hl.
Qed.

Lemma string_append_nil_r (x : string) : x +:+ "" = x.
Proof.
  induction x as [|c x IH]; [done|].
  change (String c (x +:+ "") = String c x). by rewrite IH.
Qed.

Lemma splitlines_from_no_break x rest cur :
  has_line_break x = false ->
  splitlines_from (x +:+ rest) cur = splitlines_from rest (cur +:+ x).
Proof.
  revert cur; induction x as [|c x IH]; intros cur Hx.
  - by rewrite string_append_nil_r.
  - simpl in Hx. apply orb_false_elim in Hx as [Hc Hx].
    apply orb_false_elim in Hc as [Hlf Hcr].
    change (String c x +:+ rest) with (String c (x +:+ rest)).
    cbn [splitlines_from]. rewrite Hlf, Hcr, IH by done.
    by rewrite string_append_assoc.
Qed.

(** Lines that are joined by line feeds read back as they were. *)
Lemma splitlines_join items :
  Forall one_line items ->
  splitlines (join (String LF "") items) = items.
Proof.
  unfold splitlines. induction 1 as [|x items [Hx Hb] Hitems IH]; [done|].
  destruct items as [|y items].
  - cbn [join]. rewrite <- (string_append_nil_r x) at 1.
    rewrite splitlines_from_no_break by done.
    change (splitlines_from "" ("" +:+ x)) with (if truthy x then [x] else []).
    by rewrite Hx.
  - change (join (String LF "") (x :: y :: items))
      with (x +:+ String LF (join (String LF "") (y :: items))).
    rewrite splitlines_from_no_break by done.
    cbn [splitlines_from String.append]. rewrite Ascii.eqb_refl. by rewrite IH.
Qed.

Lemma items_of_one_line lines items :
  (forall line d, json_loads w line = Some (VDict d) ->
                  one_line (json_dumps w (Flatten.flatten0 d))) ->
  items_of w lines = Some items -> Forall one_line items.
Proof.
  intros Hd. revert items; induction lines as [|line lines IH]; intros items; simpl.
  - intros [= <-]. constructor.
  - unfold line_item.
    destruct (json_loads w line) as [[| | | | |d]|] eqn:Hl; try done.
    destruct (items_of w lines) as [items'|]; [|done].
    intros [= <-]. constructor; [by apply (Hd line)|by apply IH].
Qed.

End TransformerMore.

Section TransformerExtras.
Import Py Exc Transformer.

(** X12. After a batch that is processed to its end, the destination
    holds, for every key of the batch, the content derived from its source
    object, and every other object of the destination is untouched. *)
Theorem transform_batch_destination (w : world) (records : list string)
  (s s' : state) :
  handler_transform w records s = Ok tt s' ->
  (forall k, In k records ->
             is_Some (written w k) /\ destination s' !! k = written w k)
  /\ (forall k, ~ In k records -> destination s' !! k = destination s !! k).
Proof.
  intros Hrun. apply handler_transform_ok in Hrun as (Hin & Hout & _).
  by split.
Qed.

Lemma transform_batch_destination_witness :
  (forall k, In k ["k2"; "k1"; "k2"] ->
             is_Some (written Fixtures.healthy k)
             /\ destination
                  (final (handler_transform Fixtures.healthy ["k2"; "k1"; "k2"]
                            (start {["k9" := "old"]}))) !! k
                = written Fixtures.healthy k)
  /\ (forall k, ~ In k ["k2"; "k1"; "k2"] ->
                destination
                  (final (handler_transform Fixtures.healthy ["k2"; "k1"; "k2"]
                            (start {["k9" := "old"]}))) !! k
                = destination (start {["k9" := "old"]}) !! k).
Proof.
  apply (transform_batch_destination Fixtures.healthy ["k2"; "k1"; "k2"]
           (start {["k9" := "old"]})).
  vm_compute. reflexivity.
Defined.

(** X13. A batch that is processed to its end made one [get], one [put]
    and one metrics call per record, in the order of the records; the
    metrics of a record count one object and as many lines as its source
    object has. *)
Theorem transform_batch_counters (w : world) (records : list string)
  (s s' : state) :
  handler_transform w records s = Ok tt s' ->
  gets_made s' = gets_made s + length records
  /\ puts_made s' = puts_made s + length records
  /\ metrics s' = metrics s ++ map (fun key => metric_of (lines_of w key)) records.
Proof.
  intros Hrun. apply handler_transform_ok in Hrun as (_ & _ & Hg & Hp & Hm).
  by split_and!.
Qed.

Lemma transform_batch_counters_witness :
  let s' := final (handler_transform Fixtures.healthy ["k2"; "k1"] (start ∅)) in
  gets_made s' = 0 + 2
  /\ puts_made s' = 0 + 2
  /\ metrics s' = [] ++ map (fun key => metric_of (lines_of Fixtures.healthy key))
                         ["k2"; "k1"].
Proof.
  apply (transform_batch_counters Fixtures.healthy ["k2"; "k1"] (start ∅)).
  vm_compute. reflexivity.
Defined.

(** X14. The destination does not depend on the order of the records or on
    a key being delivered more than once: two batches over the same keys,
    both processed to their end from the same destination, leave the same
    destination. *)
Theorem transform_order_and_duplicates_irrelevant (w : world)
  (records1 records2 : list string) (s1 s2 s1' s2' : state) :
  destination s1 = destination s2 ->
  (forall k, In k records1 <-> In k records2) ->
  handler_transform w records1 s1 = Ok tt s1' ->
  handler_transform w records2 s2 = Ok tt s2' ->
  destination s1' = destination s2'.
Proof.
  intros Hd Hsame H1 H2.
  apply handler_transform_ok in H1 as (Hin1 & Hout1 & _).
  apply handler_transform_ok in H2 as (Hin2 & Hout2 & _).
  apply map_eq. intros k.
  destruct (in_dec String.string_dec k records1) as [Hk|Hk].
  - destruct (Hin1 k Hk) as [_ ->].
    destruct (Hin2 k (proj1 (Hsame k) Hk)) as [_ ->]. done.
  - rewrite (Hout1 k Hk), Hout2, Hd; [done|]. intros Hk2. by apply Hk, Hsame.
Qed.

Lemma transform_order_and_duplicates_irrelevant_witness :
  destination (final (handler_transform Fixtures.healthy ["k1"; "k2"] (start ∅)))
  = destination (final (handler_transform Fixtures.healthy ["k2"; "k1"; "k2"]
                          (start ∅))).
Proof.
  apply (transform_order_and_duplicates_irrelevant Fixtures.healthy
           ["k1"; "k2"] ["k2"; "k1"; "k2"] (start ∅) (start ∅)).
  - reflexivity.
  - intros k. simpl. tauto.
  - vm_compute. reflexivity.
  - vm_compute. reflexivity.
Defined.

(** X15. When the serialised records are single lines (not empty, without
    a line end), the object written for a key reads back, line by line, as
    the transformed records: it has as many lines as the source object. *)
Theorem destination_keeps_line_count (w : world) (key : string) (s s' : state) :
  (forall line d, json_loads w line = Some (VDict d) ->
                  one_line (json_dumps w (Flatten.flatten0 d))) ->
  transform_record w key s = Ok tt s' ->
  exists content items body,
    source w !! key = Some content
    /\ items_of w (splitlines content) = Some items
    /\ destination s' !! key = Some body
    /\ splitlines body = items
    /\ length (splitlines body) = length (splitlines content).
Proof.
  intros Hdumps Hrun.
  apply transform_record_ok_state in Hrun as (content & items & Hs & Hi & ->).
  exists content, items, (join (String LF "") items).
  cbn [destination]. rewrite lookup_insert_eq.
  pose proof (splitlines_join items (items_of_one_line w _ _ Hdumps Hi)) as Hback.
  split_and!; try done.
  rewrite Hback. by apply (items_of_length w).
Qed.

Lemma destination_keeps_line_count_witness :
  exists content items body,
    source Fixtures.healthy !! "k1" = Some content
    /\ items_of Fixtures.healthy (splitlines content) = Some items
    /\ destination (final (transform_record Fixtures.healthy "k1" (start ∅)))
         !! "k1" = Some body
    /\ splitlines body = items
    /\ length (splitlines body) = length (splitlines content).
Proof.
  apply (destination_keeps_line_count Fixtures.healthy "k1" (start ∅)).
  - intros line d. simpl. unfold Fixtures.toy_loads.
    destruct (String.eqb line "bad"); [done|].
    destruct (String.eqb line "list"); [done|].
    intros [= <-]. split; reflexivity.
  - vm_compute. reflexivity.
Defined.

End TransformerExtras.

(** ** [handler_list_pages]: what an invocation has done when it stops *)
Section EnumeratorMore.
Import Py Enumerator.
Variables (ctx : context) (q : sqs_queue).

Lemma last_bookmark (key : string) (taken : list string) (o : option string) :
  from_option Some (Some key) (last taken)
  = from_option Some o (last (key :: taken)).
Proof.
  destruct taken as [|k t]; [done|].
  rewrite (last_cons key (k :: t)). by destruct (last (k :: t)).
Qed.

(** The account of a scan: the keys it took from the listing, where they
    went, the bookmark it leaves and the clock readings it made. *)
Local Ltac account_easy :=
  solve [ done
        | by rewrite ?app_nil_r
        | cbn [concat]; by rewrite ?app_nil_r
        | intros ? ?; cbn [length] in *; exfalso; lia ].

Lemma scan_account objs :
  forall tick page (ev : gmap string string) sent0,
    ev !! "all_pages_listed" = Some "FALSE" ->
    exists more taken rest,
      sent (scan ctx q objs tick page ev sent0) = sent0 ++ more
      /\ objs = taken ++ rest
      /\ concat more ++ pending (scan ctx q objs tick page ev sent0) = page ++ taken
      /\ (forall m, tick <= m < tick + length taken ->
                    (get_remaining_time_in_millis ctx m <? 30000)%Z = false)
      /\ (forall ev', ended (scan ctx q objs tick page ev sent0) = Return ev' ->
            ev' !! "bookmark" = from_option Some (ev !! "bookmark") (last taken)
            /\ (ev' !! "all_pages_listed" = Some "TRUE" -> rest = [])
            /\ (ev' !! "all_pages_listed" = Some "FALSE" ->
                (get_remaining_time_in_millis ctx (tick + length taken) <? 30000)%Z
                = true)).
Proof.
  induction objs as [|key rest0 IH]; intros tick page ev sent0 Hev.
  - cbn [scan]. unfold finish, pending. destruct page as [|k0 page].
    + exists [], [], []. cbn [ended buffer sent]. rewrite lookup_insert_eq.
      rewrite decide_True by done.
      split_and!; try account_easy.
      intros ev' [= <-]. rewrite lookup_insert_ne by done.
      rewrite lookup_insert_eq. by split_and!.
    + destruct (send_message_raises q (length sent0)); cbn [ended buffer sent].
      * exists [], [], []. split_and!; account_easy.
      * exists [k0 :: page], [], []. rewrite lookup_insert_eq.
        rewrite decide_True by done.
        split_and!; try account_easy.
        intros ev' [= <-]. rewrite lookup_insert_ne by done.
        rewrite lookup_insert_eq. by split_and!.
  - cbn [scan].
    destruct (get_remaining_time_in_millis ctx tick <? 30000)%Z eqn:Htime.
    { exists [], [], (key :: rest0). unfold pending. cbn [ended buffer sent].
      rewrite Hev. rewrite decide_False by done.
      split_and!; try account_easy.
      intros ev' [= <-]. rewrite Hev. split_and!; try done.
      intros _. cbn [length]. by rewrite Nat.add_0_r. }
    cbn zeta. destruct (Nat.eqb_spec (length (page ++ [key])) 1000) as [Hfull|Hnot].
    + destruct (send_message_raises q (length sent0)).
      { exists [], [key], rest0. unfold pending. cbn [ended buffer sent].
        split_and!; try account_easy.
        intros m Hm. simpl in Hm. by replace m with tick by lia. }
      destruct (IH (S tick) [] (<["bookmark" := key]> ev) (sent0 ++ [page ++ [key]]))
        as (more & taken & rest & Hs & Ho & Hc & Ht & He).
      { by rewrite bookmark_keeps_flag. }
      exists ((page ++ [key]) :: more), (key :: taken), rest. split_and!.
      * rewrite Hs. by rewrite <- app_assoc.
      * by rewrite Ho.
      * cbn [concat]. rewrite <- !app_assoc. by rewrite Hc.
      * intros m Hm. simpl in Hm.
        destruct (decide (m = tick)) as [->|Hne]; [done|]. apply Ht. lia.
      * intros ev' Hev'. destruct (He ev' Hev') as (Hb & Hl & Hy).
        rewrite lookup_insert_eq in Hb. split_and!.
        -- rewrite Hb. apply last_bookmark.
        -- done.
        -- intros Hf. cbn [length].
           replace (tick + S (length taken)) with (S tick + length taken) by lia.
           by apply Hy.
    + destruct (IH (S tick) (page ++ [key]) (<["bookmark" := key]> ev) sent0)
        as (more & taken & rest & Hs & Ho & Hc & Ht & He).
      { by rewrite bookmark_keeps_flag. }
      exists more, (key :: taken), rest. split_and!.
      * done.
      * by rewrite Ho.
      * rewrite Hc. by rewrite <- app_assoc.
      * intros m Hm. simpl in Hm.
        destruct (decide (m = tick)) as [->|Hne]; [done|]. apply Ht. lia.
      * intros ev' Hev'. destruct (He ev' Hev') as (Hb & Hl & Hy).
        rewrite lookup_insert_eq in Hb. split_and!.
        -- rewrite Hb. apply last_bookmark.
        -- done.
        -- intros Hf. cbn [length].
           replace (tick + S (length taken)) with (S tick + length taken) by lia.
           by apply Hy.
Qed.

(** The same account for the handler. *)
Lemma handler_account b (ev : gmap string string) :
  exists taken rest,
    listing b ev = taken ++ rest
    /\ concat (sent (handler_list_pages b q ev ctx))
       ++ pending (handler_list_pages b q ev ctx) = taken
    /\ (forall m, m < length taken ->
                  (get_remaining_time_in_millis ctx m <? 30000)%Z = false)
    /\ (forall ev', ended (handler_list_pages b q ev ctx) = Return ev' ->
          ev' !! "bookmark" = from_option Some (ev !! "bookmark") (last taken)
          /\ (ev' !! "all_pages_listed" = Some "TRUE" -> rest = [])
          /\ (ev' !! "all_pages_listed" = Some "FALSE" ->
              (get_remaining_time_in_millis ctx (length taken) <? 30000)%Z = true)).
Proof.
  rewrite handler_list_pages_scan. unfold listing.
  destruct (scan_account (objects_filter b (marker_of (ev !! "bookmark")))
              0 [] (<["all_pages_listed" := "FALSE"]> ev) [])
    as (more & taken & rest & Hs & Ho & Hc & Ht & He).
  { by rewrite lookup_insert_eq. }
  exists taken, rest. cbn [app] in Hs. rewrite Hs. split_and!; try done.
  - intros m Hm. apply Ht. lia.
  - intros ev' Hev'. destruct (He ev' Hev') as (Hb & Hl & Hy).
    rewrite lookup_insert_ne in Hb by done. by split_and!.
Qed.

(** The [all_pages_listed] flag of a returned event is always set. *)
Lemma scan_flag objs :
  forall tick page (ev : gmap string string) sent0 ev',
    ev !! "all_pages_listed" = Some "FALSE" ->
    ended (scan ctx q objs tick page ev sent0) = Return ev' ->
    ev' !! "all_pages_listed" = Some "TRUE"
    \/ ev' !! "all_pages_listed" = Some "FALSE".
Proof.
  induction objs as [|key rest0 IH]; intros tick page ev sent0 ev' Hev.
  - cbn [scan]. unfold finish. destruct page as [|k0 page].
    + intros [= <-]. left. by rewrite lookup_insert_eq.
    + destruct (send_message_raises q (length sent0)); [done|].
      intros [= <-]. left. by rewrite lookup_insert_eq.
  - cbn [scan].
    destruct (get_remaining_time_in_millis ctx tick <? 30000)%Z.
    { intros [= <-]. by right. }
    cbn zeta. destruct (Nat.eqb (length (page ++ [key])) 1000).
    + destruct (send_message_raises q (length sent0)); [done|].
      apply IH. by rewrite bookmark_keeps_flag.
    + apply IH. by rewrite bookmark_keeps_flag.
Qed.

End EnumeratorMore.

(** ** The listing order and resumption *)
Section KeyOrder.
Import Py Enumerator.

Lemma key_lt_lt a b : key_lt a b <-> OrderedTypeEx.String_as_OT.lt a b.
Proof.
  unfold key_lt, String.ltb.
  rewrite <- OrderedTypeEx.String_as_OT.cmp_lt.
  unfold OrderedTypeEx.String_as_OT.cmp.
  by destruct (String.compare a b).
Qed.

Lemma key_lt_trans a b c : key_lt a b -> key_lt b c -> key_lt a c.
Proof.
  rewrite !key_lt_lt. apply OrderedTypeEx.String_as_OT.lt_trans.
Qed.

Lemma key_lt_irrefl a : ~ key_lt a a.
Proof.
  rewrite key_lt_lt. intros H.
  by apply OrderedTypeEx.String_as_OT.lt_not_eq in H.
Qed.

Lemma key_lt_asym a b : key_lt a b -> String.ltb b a = false.
Proof.
  intros Hab. destruct (String.ltb b a) eqn:Hba; [|done].
  exfalso. apply (key_lt_irrefl a). by apply (key_lt_trans a b a).
Qed.

Lemma filter_all {X} (f : X -> bool) l :
  Forall (fun x => f x = true) l -> List.filter f l = l.
Proof. induction 1 as [|x l Hx Hl IH]; simpl; [done|]. by rewrite Hx, IH. Qed.

Lemma filter_none {X} (f : X -> bool) l :
  Forall (fun x => f x = false) l -> List.filter f l = [].
Proof. induction 1 as [|x l Hx Hl IH]; simpl; [done|]. by rewrite Hx. Qed.

(** In a sorted list, the keys after [k] are those that follow it. *)
Lemma filter_after front k rest :
  StronglySorted key_lt (front ++ k :: rest) ->
  List.filter (fun x => String.ltb k x) (front ++ k :: rest) = rest.
Proof.
  intros Hs. rewrite List.filter_app. rewrite filter_none.
  - simpl. assert (Hk : String.ltb k k = false).
    { destruct (String.ltb k k) eqn:E; [|done]. by destruct (key_lt_irrefl k). }
    rewrite Hk. apply filter_all.
    apply StronglySorted_app_1_r, StronglySorted_cons in Hs as [Hall _].
    exact Hall.
  - apply List.Forall_forall. intros x Hx. apply key_lt_asym.
    apply (StronglySorted_app_1_elem_of _ _ _ _ _ Hs).
    + by apply list_elem_of_In.
    + by left.
Qed.

(** In a sorted list, the keys after a marker are a suffix. *)
Lemma filter_suffix m l :
  StronglySorted key_lt l ->
  exists pre, l = pre ++ List.filter (fun x => String.ltb m x) l.
Proof.
  induction 1 as [|x l Hl IH Hx]; [by exists []|].
  simpl. destruct (String.ltb m x) eqn:Hm.
  - exists []. simpl. f_equal. symmetry. apply filter_all.
    eapply List.Forall_impl; [|exact Hx]. intros y Hy.
    by apply (key_lt_trans m x y).
  - destruct IH as [pre Hpre]. exists (x :: pre). simpl. by rewrite <- Hpre.
Qed.

(** After an invocation took the keys [taken] from its listing, a listing
    from its last key gives what is left. *)
Lemma listing_after_last b (ev : gmap string string) taken rest k :
  listing_order b ->
  ~ In "" b ->
  listing b ev = taken ++ rest ->
  last taken = Some k ->
  objects_filter b (marker_of (Some k)) = rest.
Proof.
  intros Hsorted0 Hne Hl Hk.
  assert (Hsorted : StronglySorted key_lt b).
  { apply Sorted.Sorted_StronglySorted; [|exact Hsorted0].
    intros x y z. apply key_lt_trans. }
  apply last_Some in Hk as [front ->].
  assert (Hb : exists pre, b = (pre ++ front) ++ k :: rest).
  { unfold listing, objects_filter in Hl.
    destruct (marker_of (ev !! "bookmark")) as [m|].
    - destruct (filter_suffix m b Hsorted) as [pre Hpre].
      exists pre. rewrite Hpre at 1. rewrite Hl. by rewrite <- !app_assoc.
    - exists []. rewrite Hl. by rewrite <- !app_assoc. }
  destruct Hb as [pre Hb].
  assert (Ht : truthy k = true).
  { destruct k; [|done]. exfalso. apply Hne. rewrite Hb.
    apply in_app_iff. right. by left. }
  unfold marker_of. rewrite Ht. unfold objects_filter.
  rewrite Hb at 1. apply filter_after. by rewrite <- Hb.
Qed.

End KeyOrder.

Lemma bucket3_listing_order : Enumerator.listing_order Fixtures.bucket3.
Proof. repeat constructor. Qed.

Lemma bucket3_no_empty_key : ~ In "" Fixtures.bucket3.
Proof. vm_compute. intuition discriminate. Qed.

Section EnumeratorExtras.
Import Py Enumerator.

(** X16. The keys an invocation appended to its page list, those of the
    pages it sent followed by those it still held when it stopped, are a
    prefix of the listing it scanned: keys are taken in listing order,
    none is skipped and none is taken twice. *)
Theorem invocation_appends_a_prefix b q (ev : gmap string string) ctx :
  exists rest,
    listing b ev
    = (concat (sent (handler_list_pages b q ev ctx))
       ++ pending (handler_list_pages b q ev ctx)) ++ rest.
Proof.
  destruct (handler_account ctx q b ev) as (taken & rest & Hl & Ht & _).
  exists rest. by rewrite Ht.
Qed.

(** X17. The bookmark of the event an invocation returns is the last key
    it appended to its page list, whether that key was sent or is only in
    the buffer; when it appended none the bookmark is the one it got. *)
Theorem returned_bookmark_is_last_appended b q (ev ev' : gmap string string) ctx :
  ended (handler_list_pages b q ev ctx) = Return ev' ->
  ev' !! "bookmark"
  = from_option Some (ev !! "bookmark")
      (last (concat (sent (handler_list_pages b q ev ctx))
             ++ pending (handler_list_pages b q ev ctx))).
Proof.
  intros Hev'.
  destruct (handler_account ctx q b ev) as (taken & rest & Hl & Ht & _ & He).
  destruct (He ev' Hev') as (Hb & _). by rewrite Ht.
Qed.

Lemma returned_bookmark_is_last_appended_witness :
  ({["bookmark" := "k1"; "all_pages_listed" := "FALSE"]} : gmap string string)
    !! "bookmark"
  = from_option Some ((∅ : gmap string string) !! "bookmark")
      (last (concat (sent (handler_list_pages Fixtures.bucket3 Fixtures.reliable
                             ∅ (Fixtures.runs_out_after 2)))
             ++ pending (handler_list_pages Fixtures.bucket3 Fixtures.reliable
                           ∅ (Fixtures.runs_out_after 2)))).
Proof.
  apply (returned_bookmark_is_last_appended Fixtures.bucket3 Fixtures.reliable
           ∅ _ (Fixtures.runs_out_after 2)).
  vm_compute. reflexivity.
Defined.

(** X18. An invocation that returns [all_pages_listed = "TRUE"] has sent
    every key of its listing, in order, and holds none back. *)
Theorem listed_means_all_sent b q (ev ev' : gmap string string) ctx :
  ended (handler_list_pages b q ev ctx) = Return ev' ->
  ev' !! "all_pages_listed" = Some "TRUE" ->
  concat (sent (handler_list_pages b q ev ctx)) = listing b ev.
Proof.
  intros Hev' Hflag.
  destruct (handler_account ctx q b ev) as (taken & rest & Hl & Ht & _ & He).
  destruct (He ev' Hev') as (_ & Hrest & _).
  rewrite Hl, (Hrest Hflag), app_nil_r, <- Ht.
  unfold pending. rewrite Hev', decide_True by done. by rewrite app_nil_r.
Qed.

Lemma listed_means_all_sent_witness :
  concat (sent (handler_list_pages Fixtures.bucket3 Fixtures.reliable
                  {["bookmark" := "k0"]} Fixtures.ample))
  = listing Fixtures.bucket3 {["bookmark" := "k0"]}.
Proof.
  apply (listed_means_all_sent Fixtures.bucket3 Fixtures.reliable
           {["bookmark" := "k0"]}
           {["bookmark" := "k2"; "all_pages_listed" := "TRUE"]} Fixtures.ample).
  - vm_compute. reflexivity.
  - reflexivity.
Defined.

(** X19. An invocation yields only at a clock reading under 30 seconds: it
    is the reading made for the key that follows the ones it appended, and
    every reading before it was of 30 seconds or more. *)
Theorem yield_only_when_time_is_short b q (ev : gmap string string) ctx :
  Claims.yielded (handler_list_pages b q ev ctx) ->
  let n := length (concat (sent (handler_list_pages b q ev ctx))
                   ++ buffer (handler_list_pages b q ev ctx)) in
  (get_remaining_time_in_millis ctx n < 30000)%Z
  /\ forall m, m < n -> (30000 <= get_remaining_time_in_millis ctx m)%Z.
Proof.
  intros (ev' & Hev' & Hflag) n.
  destruct (handler_account ctx q b ev) as (taken & rest & Hl & Ht & Hm & He).
  destruct (He ev' Hev') as (_ & _ & Hy).
  assert (Hn : n = length taken).
  { subst n. rewrite <- Ht. unfold pending. rewrite Hev', Hflag.
    by rewrite decide_False. }
  rewrite Hn. split.
  - apply Z.ltb_lt. by apply Hy.
  - intros m Hlt. apply Z.ltb_ge. by apply Hm.
Qed.

Lemma yield_only_when_time_is_short_witness :
  let n := length (concat (sent (handler_list_pages Fixtures.bucket3 Fixtures.reliable
                                   ∅ (Fixtures.runs_out_after 2)))
                   ++ buffer (handler_list_pages Fixtures.bucket3 Fixtures.reliable
                                ∅ (Fixtures.runs_out_after 2))) in
  (get_remaining_time_in_millis (Fixtures.runs_out_after 2) n < 30000)%Z
  /\ forall m, m < n ->
               (30000 <= get_remaining_time_in_millis (Fixtures.runs_out_after 2) m)%Z.
Proof.
  apply (yield_only_when_time_is_short Fixtures.bucket3 Fixtures.reliable ∅
           (Fixtures.runs_out_after 2)).
  exists {["bookmark" := "k1"; "all_pages_listed" := "FALSE"]}.
  split; [vm_compute; reflexivity|reflexivity].
Defined.

(** The listing of the next invocation, for a bucket in listing order. *)
Lemma next_listing b q (ev ev' : gmap string string) ctx :
  listing_order b ->
  ~ In "" b ->
  ended (handler_list_pages b q ev ctx) = Return ev' ->
  listing b ev
  = (concat (sent (handler_list_pages b q ev ctx))
     ++ pending (handler_list_pages b q ev ctx)) ++ listing b ev'.
Proof.
  intros Hsorted Hne Hev'.
  destruct (handler_account ctx q b ev) as (taken & rest & Hl & Ht & _ & He).
  destruct (He ev' Hev') as (Hb & _). rewrite Ht, Hl. f_equal.
  destruct (last taken) as [k|] eqn:Hk.
  - unfold listing at 1. rewrite Hb. cbn [from_option]. symmetry.
    by apply (listing_after_last b ev taken rest k).
  - apply last_None in Hk as ->. cbn [from_option] in Hb.
    rewrite app_nil_l in Hl. unfold listing in *. by rewrite Hb, Hl.
Qed.

(** X20. On a bucket in listing order, the invocation that is given the
    returned event scans exactly the keys that follow the ones this
    invocation appended: its listing followed by those keys is this
    invocation's listing.  So a key is scanned again by no later
    invocation, and the keys held back at a yield are scanned by none. *)
Theorem resume_lists_the_rest b q (ev ev' : gmap string string) ctx :
  listing_order b ->
  ~ In "" b ->
  ended (handler_list_pages b q ev ctx) = Return ev' ->
  listing b ev
  = (concat (sent (handler_list_pages b q ev ctx))
     ++ pending (handler_list_pages b q ev ctx)) ++ listing b ev'.
Proof. apply next_listing. Qed.

Lemma resume_lists_the_rest_witness :
  listing Fixtures.bucket3 ∅
  = (concat (sent (handler_list_pages Fixtures.bucket3 Fixtures.reliable
                     ∅ (Fixtures.runs_out_after 2)))
     ++ pending (handler_list_pages Fixtures.bucket3 Fixtures.reliable
                   ∅ (Fixtures.runs_out_after 2)))
    ++ listing Fixtures.bucket3
         {["bookmark" := "k1"; "all_pages_listed" := "FALSE"]}.
Proof.
  apply (resume_lists_the_rest Fixtures.bucket3 Fixtures.reliable ∅
           {["bookmark" := "k1"; "all_pages_listed" := "FALSE"]}
           (Fixtures.runs_out_after 2)).
  - exact bucket3_listing_order.
  - exact bucket3_no_empty_key.
  - vm_compute. reflexivity.
Defined.

(** X21. Over a run of invocations that feed the returned event back, on a
    bucket in listing order: the keys of the pages sent are a subsequence
    of the listing (listing order, no key twice); when the run ends with
    [all_pages_listed = "TRUE"], the keys sent and the keys held back at
    the yields add up to the listing, so the run has sent every key
    exactly when no invocation yielded with keys in its buffer. *)
Theorem run_sends_keys_in_order b invs (ev : gmap string string) :
  listing_order b ->
  ~ In "" b ->
  concat (snd (orchestrate b invs ev)) `sublist_of` listing b ev
  /\ (forall ev', fst (orchestrate b invs ev) = AllListed ev' ->
        length (concat (snd (orchestrate b invs ev)))
        + length (lost_keys b invs ev) = length (listing b ev)
        /\ (lost_keys b invs ev = [] ->
            concat (snd (orchestrate b invs ev)) = listing b ev)).
Proof.
  intros Hsorted Hne. revert ev.
  induction invs as [|[ctx q] later IH]; intros ev.
  - simpl. split; [apply sublist_nil_l|done].
  - cbn [orchestrate lost_keys]. cbn zeta.
    destruct (handler_account ctx q b ev) as (taken & rest & Hl & Ht & _ & He).
    destruct (ended (handler_list_pages b q ev ctx)) as [ev1|e] eqn:Hend.
    + destruct (He ev1 eq_refl) as (_ & Hrest & _).
      pose proof (next_listing b q ev ev1 ctx Hsorted Hne Hend) as Hnext.
      unfold pending in Ht, Hnext. rewrite Hend in Ht, Hnext.
      destruct (decide (ev1 !! "all_pages_listed" = Some "TRUE")) as [Hflag|Hflag].
      * cbn [fst snd]. rewrite app_nil_r in Ht.
        rewrite Hl, (Hrest Hflag), app_nil_r, Ht.
        split; [done|]. intros ev' _. simpl. split; [lia|done].
      * destruct (IH ev1) as [Hsub Hall].
        destruct (orchestrate b later ev1) as [st pages] eqn:Ho.
        cbn [fst snd] in *. rewrite concat_app, Hnext. split.
        -- rewrite <- app_assoc. apply sublist_app; [done|].
           by apply sublist_inserts_l.
        -- intros ev' Hst. destruct (Hall ev' Hst) as [Hlen Heq].
           rewrite !length_app. split; [lia|].
           intros Hlost. apply app_eq_nil in Hlost as [Hbuf Hlost].
           rewrite Hbuf, app_nil_r. by rewrite Heq.
    + cbn [fst snd]. unfold pending in Ht. rewrite Hend in Ht.
      split; [|done]. rewrite Hl, <- Ht, <- app_assoc.
      apply sublist_inserts_r. done.
Qed.

Lemma run_sends_keys_in_order_witness :
  concat (snd (orchestrate Fixtures.bucket3
                 [(Fixtures.runs_out_after 2, Fixtures.reliable);
                  (Fixtures.ample, Fixtures.reliable)] ∅))
    `sublist_of` listing Fixtures.bucket3 ∅
  /\ (forall ev',
        fst (orchestrate Fixtures.bucket3
               [(Fixtures.runs_out_after 2, Fixtures.reliable);
                (Fixtures.ample, Fixtures.reliable)] ∅) = AllListed ev' ->
        length (concat (snd (orchestrate Fixtures.bucket3
                               [(Fixtures.runs_out_after 2, Fixtures.reliable);
                                (Fixtures.ample, Fixtures.reliable)] ∅)))
        + length (lost_keys Fixtures.bucket3
                    [(Fixtures.runs_out_after 2, Fixtures.reliable);
                     (Fixtures.ample, Fixtures.reliable)] ∅)
        = length (listing Fixtures.bucket3 ∅)
        /\ (lost_keys Fixtures.bucket3
              [(Fixtures.runs_out_after 2, Fixtures.reliable);
               (Fixtures.ample, Fixtures.reliable)] ∅ = [] ->
            concat (snd (orchestrate Fixtures.bucket3
                           [(Fixtures.runs_out_after 2, Fixtures.reliable);
                            (Fixtures.ample, Fixtures.reliable)] ∅))
            = listing Fixtures.bucket3 ∅)).
Proof.
  apply (run_sends_keys_in_order Fixtures.bucket3
           [(Fixtures.runs_out_after 2, Fixtures.reliable);
            (Fixtures.ample, Fixtures.reliable)] ∅).
  - exact bucket3_listing_order.
  - exact bucket3_no_empty_key.
Defined.

End EnumeratorExtras.
